(** * A shallow embedding of [todo.py], the command-line task manager

    The program keeps a list of task dictionaries in one JSON file and
    offers four commands: [add], [list], [complete] and [delete].  This
    development embeds the functions of [todo.py] as executable Rocq
    definitions and proves the properties its specification states about
    them.

    Modelling choices, from the source:
    - Python values are the inductive [Py.scalar]; a task is a Python
      [dict], embedded as an association list in insertion order, so that
      a missing key raises [KeyError] as in the source and the key order
      that [json.dump] writes is kept.  Numbers with a fraction or an
      exponent (Python floats) and values nested inside a task are not
      represented.
    - Python [str] is [string], read as the UTF-8 bytes of the text.
    - Python [int] is [Z].
    - Exceptions are the [Raise] branch of [Py.result].
    - The file system, the two output streams and the process exit are the
      explicit state [Todo.world] and the outcome of a command.
    - [json.load] and [datetime.fromisoformat] are library functions; the
      program is parameterised by them.
    - The argument parser ([create_parser], [main]) and
      [get_tasks_file_path] are not embedded: a command is a call of its
      handler with the parsed arguments, and the world has the one file
      the path names. *)

From stdpp Require Import base numbers list strings pretty.
From Stdlib Require Import ZArith String Ascii.

Local Open Scope Z_scope.

(** ** Python values *)

Module Py.

(** The exceptions the program can meet. *)
Inductive exn : Type :=
| KeyError
| TypeError
| ValueError.

(** A computation that returns or raises. *)
Inductive result (A : Type) : Type :=
| Ok (a : A)
| Raise (e : exn).
Global Arguments Ok {A} a.
Global Arguments Raise {A} e.

Global Instance result_ret : MRet result := fun A a => Ok a.
Global Instance result_bind : MBind result := fun A B f m =>
  match m with
  | Ok a => f a
  | Raise e => Raise e
  end.
Global Instance result_fmap : FMap result := fun A B f m =>
  match m with
  | Ok a => Ok (f a)
  | Raise e => Raise e
  end.

(** The values a field of a task can hold: [None], [True]/[False], an
    [int], a [str]. *)
Inductive scalar : Type :=
| VNone
| VBool (b : bool)
| VInt (n : Z)
| VStr (s : string).

(** A Python [dict] with string keys, in insertion order. *)
Definition dict : Type := list (string * scalar).

(** An element of the task list: a dictionary, or a bare scalar when
    the file holds something else in the array. *)
Inductive elem : Type :=
| EDict (d : dict)
| EScalar (v : scalar).

(** [d.get(k)]: the value stored under [k]. *)
Fixpoint dict_get (k : string) (d : dict) : option scalar :=
  match d with
  | [] => None
  | (k', v) :: d' => if String.eqb k' k then Some v else dict_get k d'
  end.

(** [d[k] = v]: replaces the value in place when the key exists and
    appends the key otherwise. *)
Fixpoint dict_set (k : string) (v : scalar) (d : dict) : dict :=
  match d with
  | [] => [(k, v)]
  | (k', v') :: d' =>
      if String.eqb k' k then (k, v) :: d' else (k', v') :: dict_set k v d'
  end.

(** [x[k]]: [KeyError] on a dictionary without the key, [TypeError] on
    a value that is not a dictionary. *)
Definition subscript (x : elem) (k : string) : result scalar :=
  match x with
  | EDict d =>
      match dict_get k d with
      | Some v => Ok v
      | None => Raise KeyError
      end
  | EScalar _ => Raise TypeError
  end.

(** [bool] is a subclass of [int]: [True] is 1 and [False] is 0. *)
Definition as_int (v : scalar) : option Z :=
  match v with
  | VInt n => Some n
  | VBool b => Some (if b then 1 else 0)
  | _ => None
  end.

(** [v == n] for an [int] [n]. *)
Definition eq_int (v : scalar) (n : Z) : bool :=
  match as_int v with
  | Some m => m =? n
  | None => false
  end.

(** [a == b] on scalars. *)
Definition scalar_eq (a b : scalar) : bool :=
  match a, b with
  | VNone, VNone => true
  | VStr s, VStr t => String.eqb s t
  | _, _ =>
      match as_int a, as_int b with
      | Some x, Some y => x =? y
      | _, _ => false
      end
  end.

(** [d1 == d2] on dictionaries: the same keys with equal values, in any
    order. *)
Definition dict_eq (d1 d2 : dict) : bool :=
  (List.length d1 =? List.length d2)%nat
  && forallb (fun kv =>
                match dict_get kv.1 d2 with
                | Some v' => scalar_eq kv.2 v'
                | None => false
                end) d1.

Definition elem_eq (x y : elem) : bool :=
  match x, y with
  | EDict d1, EDict d2 => dict_eq d1 d2
  | EScalar a, EScalar b => scalar_eq a b
  | _, _ => false
  end.

(** [a > b]: numbers compare with numbers and strings with strings;
    every other pair raises [TypeError]. *)
Definition gt (a b : scalar) : result bool :=
  match as_int a, as_int b with
  | Some x, Some y => Ok (y <? x)
  | _, _ =>
      match a, b with
      | VStr s, VStr t =>
          Ok (match String.compare s t with Gt => true | _ => false end)
      | _, _ => Raise TypeError
      end
  end.

(** [v + 1]. *)
Definition add1 (v : scalar) : result Z :=
  match as_int v with
  | Some n => Ok (n + 1)
  | None => Raise TypeError
  end.

(** Truth value of a scalar in a condition. *)
Definition truthy (v : scalar) : bool :=
  match v with
  | VNone => false
  | VBool b => b
  | VInt n => negb (n =? 0)
  | VStr s => negb (String.eqb s EmptyString)
  end.

(** [str(v)], which is what an f-string field writes. *)
Definition str (v : scalar) : string :=
  match v with
  | VNone => "None"
  | VBool true => "True"
  | VBool false => "False"
  | VInt n => pretty n
  | VStr s => s
  end.

(** [l.remove(x)] where [x] is the object at position [i] of the list:
    removes the first item that is [x] itself or equals it, and raises
    [ValueError] when there is none.  [j] is the position of the head
    of [l] in the whole list. *)
Fixpoint list_remove_from (j i : nat) (x : elem) (l : list elem)
  : result (list elem) :=
  match l with
  | [] => Raise ValueError
  | y :: l' =>
      if (j =? i)%nat || elem_eq y x then Ok l'
      else (fun r => y :: r) <$> list_remove_from (S j) i x l'
  end.

Definition list_remove (i : nat) (x : elem) (l : list elem)
  : result (list elem) :=
  list_remove_from 0 i x l.

End Py.

(** ** [json.dump] *)

Module Json.
Import Py.

Definition quote : string := String "034"%char EmptyString.
Definition newline : string := String "010"%char EmptyString.

(** A lower-case hexadecimal digit. *)
Definition hex_digit (n : N) : ascii :=
  if (n <? 10)%N then ascii_of_N (48 + n) else ascii_of_N (87 + n).

(** The replacement of one character inside a JSON string when
    [ensure_ascii] is false: the quote, the backslash and the control
    characters below 0x20 are escaped, every other byte is kept. *)
Definition escape_char (c : ascii) : string :=
  let n := N_of_ascii c in
  if (n =? 34)%N then "\" +:+ quote
  else if (n =? 92)%N then "\\"
  else if (n =? 10)%N then "\n"
  else if (n =? 13)%N then "\r"
  else if (n =? 9)%N then "\t"
  else if (n =? 8)%N then "\b"
  else if (n =? 12)%N then "\f"
  else if (n <? 32)%N then
    "\u00" +:+ String (hex_digit (n / 16)) (String (hex_digit (n mod 16)) EmptyString)
  else String c EmptyString.

Fixpoint escape (s : string) : string :=
  match s with
  | EmptyString => EmptyString
  | String c s' => escape_char c +:+ escape s'
  end.

(** A JSON string literal. *)
Definition encode_str (s : string) : string := quote +:+ escape s +:+ quote.

Definition encode_scalar (v : scalar) : string :=
  match v with
  | VNone => "null"
  | VBool true => "true"
  | VBool false => "false"
  | VInt n => pretty n
  | VStr s => encode_str s
  end.

Fixpoint join (sep : string) (l : list string) : string :=
  match l with
  | [] => EmptyString
  | [x] => x
  | x :: l' => x +:+ sep +:+ join sep l'
  end.

(** [level] copies of the two-space indent. *)
Fixpoint indent (level : nat) : string :=
  match level with
  | O => EmptyString
  | S n => "  " +:+ indent n
  end.

Definition encode_item (kv : string * scalar) : string :=
  encode_str kv.1 +:+ ": " +:+ encode_scalar kv.2.

(** A dictionary that starts at nesting depth [level]; keys are written
    in the order the dictionary holds them. *)
Definition encode_dict (level : nat) (d : dict) : string :=
  match d with
  | [] => "{}"
  | _ =>
      let newline_indent := newline +:+ indent (S level) in
      "{" +:+ newline_indent
          +:+ join ("," +:+ newline_indent) (map encode_item d)
          +:+ newline +:+ indent level +:+ "}"
  end.

Definition encode_elem (level : nat) (x : elem) : string :=
  match x with
  | EDict d => encode_dict level d
  | EScalar v => encode_scalar v
  end.

(** The text [json.dump(tasks, f, indent=2, ensure_ascii=False)]
    writes. *)
Definition dumps_indent2 (tasks : list elem) : string :=
  match tasks with
  | [] => "[]"
  | _ =>
      let newline_indent := newline +:+ indent 1 in
      "[" +:+ newline_indent
          +:+ join ("," +:+ newline_indent) (map (encode_elem 1) tasks)
          +:+ newline +:+ "]"
  end.

(** The text [json.dump([], f)] writes. *)
Definition dumps_empty_list : string := "[]".

End Json.

(** ** The program *)

Module Todo.
Import Py.

(** *** Task Repository: operations on the list in memory *)

(** The running maximum of [max(task['id'] for task in tasks)]: each
    next id is read and then compared with the maximum so far. *)
Fixpoint max_id_from (cur : scalar) (tasks : list elem) : result scalar :=
  match tasks with
  | [] => Ok cur
  | task :: rest =>
      v ← subscript task "id";
      b ← gt v cur;
      max_id_from (if b : bool then v else cur) rest
  end.

Definition get_next_id (tasks : list elem) : result Z :=
  match tasks with
  | [] => Ok 1
  | task :: rest =>
      v ← subscript task "id";
      m ← max_id_from v rest;
      add1 m
  end.

(** The dictionary [add_task] builds; [now] is the value of
    [datetime.now().isoformat()] at the call. *)
Definition new_task (id : Z) (task_text now : string) : dict :=
  [("id", VInt id); ("text", VStr task_text);
   ("completed", VBool false); ("created_at", VStr now)].

(** Returns the new task and the list after the append. *)
Definition add_task (now task_text : string) (tasks : list elem)
  : result (dict * list elem) :=
  id ← get_next_id tasks;
  let task := new_task id task_text now in
  Ok (task, tasks ++ [EDict task]).

(** The task found is a reference to a member of the list: its position
    comes with it.  [i] is the position of the head of [tasks]. *)
Fixpoint find_task_from (i : nat) (task_id : Z) (tasks : list elem)
  : result (option (nat * elem)) :=
  match tasks with
  | [] => Ok None
  | task :: rest =>
      v ← subscript task "id";
      if eq_int v task_id then Ok (Some (i, task))
      else find_task_from (S i) task_id rest
  end.

Definition find_task_by_id (task_id : Z) (tasks : list elem)
  : result (option (nat * elem)) :=
  find_task_from 0 task_id tasks.

(** [task['completed'] = True] on a member of the list. *)
Definition set_completed (task : elem) : result elem :=
  match task with
  | EDict d => Ok (EDict (dict_set "completed" (VBool true) d))
  | EScalar _ => Raise TypeError
  end.

(** Returns the flag and the list after the call. *)
Definition complete_task (task_id : Z) (tasks : list elem)
  : result (bool * list elem) :=
  found ← find_task_by_id task_id tasks;
  match found with
  | None => Ok (false, tasks)
  | Some (i, task) =>
      task' ← set_completed task;
      Ok (true, <[i := task']> tasks)
  end.

Definition delete_task (task_id : Z) (tasks : list elem)
  : result (bool * list elem) :=
  found ← find_task_by_id task_id tasks;
  match found with
  | None => Ok (false, tasks)
  | Some (i, task) =>
      tasks' ← list_remove i task tasks;
      Ok (true, tasks')
  end.

(** *** The world a command runs in *)

Inductive event : Type :=
| EOpenW                  (* the tasks file is opened with mode 'w' *)
| EWrite (text : string)  (* text is written to the open tasks file *)
| EStdout (line : string) (* print(line) *)
| EStderr (line : string) (* print(line, file=sys.stderr) *).

(** [file] is the content of [tasks.json], [None] when the file does
    not exist; [log] is what the process did so far, oldest first. *)
Record world : Type := World {
  file : option string;
  log : list event
}.

(** How a command ends: it returns, an exception escapes, or
    [sys.exit] ends the process. *)
Inductive outcome (A : Type) : Type :=
| Returns (a : A)
| Raises (e : exn)
| Exits (code : Z).
Global Arguments Returns {A} a.
Global Arguments Raises {A} e.
Global Arguments Exits {A} code.

Definition io (A : Type) : Type := world -> world * outcome A.

Definition io_ret {A} (a : A) : io A := fun w => (w, Returns a).

Definition io_bind {A B} (m : io A) (k : A -> io B) : io B := fun w =>
  match m w with
  | (w', Returns a) => k a w'
  | (w', Raises e) => (w', Raises e)
  | (w', Exits c) => (w', Exits c)
  end.

Notation "x <-- m ;; k" := (io_bind m (fun x => k))
  (at level 100, m at next level, right associativity).
Notation "m ;;; k" := (io_bind m (fun _ => k))
  (at level 100, right associativity).

(** A pure computation inside a command. *)
Definition lift {A} (r : result A) : io A := fun w =>
  match r with
  | Ok a => (w, Returns a)
  | Raise e => (w, Raises e)
  end.

Definition emit (e : event) : io unit := fun w =>
  ({| file := file w; log := log w ++ [e] |}, Returns tt).

Definition print (line : string) : io unit := emit (EStdout line).
Definition eprint (line : string) : io unit := emit (EStderr line).
Definition sys_exit {A} (code : Z) : io A := fun w => (w, Exits code).

(** [open(file_path, 'w')] creates the file or cuts it to length zero. *)
Definition open_w (w : world) : world :=
  {| file := Some EmptyString; log := log w ++ [EOpenW] |}.

(** Writing to the open file adds the text at its end.  [json.dump]
    hands its text to the file piece by piece; the pieces are recorded
    as one write, the file holding the same text once it is closed. *)
Definition write (text : string) (w : world) : world :=
  {| file := Some (default EmptyString (file w) +:+ text);
     log := log w ++ [EWrite text] |}.

(** The world after a sequence of file operations. *)
Definition run_steps (steps : list (world -> world)) (w : world) : world :=
  foldl (fun w' step => step w') w steps.

(** *** Storage Codec *)

(** [with open(file_path, 'w') as f: json.dump(tasks, f, indent=2,
    ensure_ascii=False)], as the operations on the file, in order. *)
Definition save_tasks_steps (tasks : list elem) : list (world -> world) :=
  [open_w; write (Json.dumps_indent2 tasks)].

Definition save_tasks (tasks : list elem) : io unit := fun w =>
  (run_steps (save_tasks_steps tasks) w, Returns tt).

(** [with open(file_path, 'w') as f: json.dump([], f)]. *)
Definition init_file : io unit := fun w =>
  (run_steps [open_w; write Json.dumps_empty_list] w, Returns tt).

(** What [json.load] makes of the text of the file: a list, a value
    that is not a list, or a [JSONDecodeError] (or another [ValueError]
    of the decoder) with its message. *)
Inductive loaded : Type :=
| LList (tasks : list elem)
| LOther
| LError (msg : string).

(** A [datetime]. *)
Record datetime : Type := DateTime {
  year : Z; month : Z; day : Z;
  hour : Z; minute : Z; second : Z; microsecond : Z
}.

Definition digit (n : Z) : ascii := ascii_of_N (48 + Z.to_N (n `mod` 10)).

Definition pad2 (n : Z) : string :=
  String (digit (n / 10)) (String (digit n) EmptyString).

Definition pad4 (n : Z) : string :=
  String (digit (n / 1000)) (String (digit (n / 100)) (pad2 n)).

(** [dt.strftime("%Y-%m-%d %H:%M")], with the year written on four
    digits as the Python documentation gives it. *)
Definition strftime_ymd_hm (dt : datetime) : string :=
  pad4 (year dt) +:+ "-" +:+ pad2 (month dt) +:+ "-" +:+ pad2 (day dt)
    +:+ " " +:+ pad2 (hour dt) +:+ ":" +:+ pad2 (minute dt).

(** The mark of a completed task, the seven bytes of the string literal
    in the source. *)
Definition done_mark : string :=
  String "195"%char (String "162"%char (String "197"%char (String "147"%char
    (String "226"%char (String "128"%char (String "156"%char EmptyString)))))).

Section Program.

(** [json.load] on the text of the file. *)
Variable json_load : string -> loaded.

(** [datetime.fromisoformat] on a string; [None] is its
    [ValueError]. *)
Variable fromisoformat : string -> option datetime.

Definition corrupted_message (e : string) : string :=
  "Error: Corrupted tasks file detected (" +:+ e +:+ "). Reinitializing...".

(** The [except (json.JSONDecodeError, ValueError) as e] branch. *)
Definition reinitialize (e : string) : io (list elem) :=
  eprint (corrupted_message e) ;;;
  init_file ;;;
  io_ret [].

Definition load_tasks : io (list elem) := fun w =>
  match file w with
  | None => (init_file ;;; io_ret []) w
  | Some text =>
      match json_load text with
      | LList tasks => io_ret tasks w
      | LOther => reinitialize "Tasks file must contain a JSON array" w
      | LError msg => reinitialize msg w
      end
  end.

(** [datetime.fromisoformat(v)]: [TypeError] when [v] is not a
    string. *)
Definition parse_created_at (v : scalar) : result datetime :=
  match v with
  | VStr s =>
      match fromisoformat s with
      | Some dt => Ok dt
      | None => Raise ValueError
      end
  | _ => Raise TypeError
  end.

(** The [try] block of [format_task] and its
    [except (ValueError, KeyError)]. *)
Definition format_timestamp (task : elem) : result string :=
  match (v ← subscript task "created_at";
         created_dt ← parse_created_at v;
         Ok (strftime_ymd_hm created_dt)) with
  | Ok timestamp => Ok timestamp
  | Raise ValueError | Raise KeyError => Ok "Unknown"
  | Raise e => Raise e
  end.

Definition format_task (task : elem) : result string :=
  completed ← subscript task "completed";
  let status := if truthy completed then done_mark else " " in
  task_id ← subscript task "id";
  text ← subscript task "text";
  timestamp ← format_timestamp task;
  Ok ("[" +:+ str task_id +:+ "] [" +:+ status +:+ "] " +:+ str text
          +:+ " (" +:+ timestamp +:+ ")").

Fixpoint print_tasks (tasks : list elem) : io unit :=
  match tasks with
  | [] => io_ret tt
  | task :: rest =>
      line <-- lift (format_task task) ;;
      print line ;;;
      print_tasks rest
  end.

Definition list_tasks (tasks : list elem) : io unit :=
  match tasks with
  | [] => print "No tasks found."
  | _ => print_tasks tasks
  end.

(** *** Command Handlers *)

Definition handle_add (now text : string) : io unit :=
  tasks <-- load_tasks ;;
  added <-- lift (add_task now text tasks) ;;
  save_tasks added.2 ;;;
  id <-- lift (subscript (EDict added.1) "id") ;;
  txt <-- lift (subscript (EDict added.1) "text") ;;
  print ("Added task #" +:+ str id +:+ ": " +:+ str txt).

Definition handle_list : io unit :=
  tasks <-- load_tasks ;;
  list_tasks tasks.

Definition not_found_message (id : Z) : string :=
  "Error: Task #" +:+ pretty id +:+ " not found".

Definition handle_complete (id : Z) : io unit :=
  tasks <-- load_tasks ;;
  r <-- lift (complete_task id tasks) ;;
  if r.1 : bool then
    save_tasks r.2 ;;;
    print ("Marked task #" +:+ pretty id +:+ " as complete")
  else
    eprint (not_found_message id) ;;;
    sys_exit 1.

Definition handle_delete (id : Z) : io unit :=
  tasks <-- load_tasks ;;
  r <-- lift (delete_task id tasks) ;;
  if r.1 : bool then
    save_tasks r.2 ;;;
    print ("Deleted task #" +:+ pretty id)
  else
    eprint (not_found_message id) ;;;
    sys_exit 1.

End Program.

End Todo.

(** ** The vocabulary of the specification *)

Module Spec.
Import Py Todo.

(** The id of a task of the data model: a dictionary whose ["id"] is an
    integer. *)
Definition int_id (task : elem) : option Z :=
  match task with
  | EDict d =>
      match dict_get "id" d with
      | Some (VInt n) => Some n
      | _ => None
      end
  | EScalar _ => None
  end.

(** The ids of a collection in order, when every member is a task with
    an integer id. *)
Fixpoint task_ids (tasks : list elem) : option (list Z) :=
  match tasks with
  | [] => Some []
  | task :: rest =>
      n ← int_id task;
      ns ← task_ids rest;
      Some (n :: ns)
  end.

(** Tasks with integer ids that are all different from [id]: the
    tasks a search for [id] walks past. *)
Definition others (id : Z) : list elem -> Prop :=
  Forall (fun t => exists m, int_id t = Some m /\ m <> id).

(** No reuse of ids, for the collection [tasks] and the id [id]: the
    [add] that follows the [delete] of [id] does not assign [id]
    again. *)
Definition no_id_reuse (tasks : list elem) (id : Z) : Prop :=
  forall now text tasks1 added,
    delete_task id tasks = Ok (true, tasks1) ->
    add_task now text tasks1 = Ok added ->
    subscript (EDict added.1) "id" <> Ok (VInt id).




Definition is_digit (c : ascii) : bool :=
  let n := N_of_ascii c in (48 <=? n)%N && (n <=? 57)%N.

Definition digit_value (c : ascii) : option Z :=
  if is_digit c then Some (Z.of_N (N_of_ascii c) - 48) else None.

(** The number a run of decimal digits stands for. *)
Definition read_number (cs : list ascii) : option Z :=
  foldl (fun acc c => a ← acc; v ← digit_value c; Some (10 * a + v))
        (Some 0) cs.

(** Reading a text of the shape [YYYY-MM-DD HH:MM]: the year, month,
    day, hour and minute it shows, and [None] for a text of another
    shape. *)
Definition read_ymd_hm (s : string) : option (Z * Z * Z * Z * Z) :=
  match list_ascii_of_string s with
  | [y1; y2; y3; y4; d1; m1; m2; d2; a1; a2; sp; h1; h2; co; n1; n2] =>
      if Ascii.eqb d1 "-" && Ascii.eqb d2 "-"
         && Ascii.eqb sp " " && Ascii.eqb co ":"
      then
        y ← read_number [y1; y2; y3; y4];
        m ← read_number [m1; m2];
        d ← read_number [a1; a2];
        h ← read_number [h1; h2];
        n ← read_number [n1; n2];
        Some (y, m, d, h, n)
      else None
  | _ => None
  end.

(** The ranges of the fields of a [datetime] that [strftime] prints;
    four-digit years. *)
Definition printable_datetime (dt : datetime) : Prop :=
  1000 <= year dt <= 9999 /\ 1 <= month dt <= 12 /\ 1 <= day dt <= 31
  /\ 0 <= hour dt <= 23 /\ 0 <= minute dt <= 59.

(** The line of the listing, in the words of the specification:
    [[id] [status-mark] text (timestamp)]. *)
Definition listing_line (id : Z) (completed : bool) (text timestamp : string)
  : string :=
  "[" +:+ pretty id +:+ "] [" +:+ (if completed then done_mark else " ")
      +:+ "] " +:+ text +:+ " (" +:+ timestamp +:+ ")".

(** The timestamp of the listing for a task with the given
    [created_at], [None] being a task without the field: [Unknown] when
    the field is missing or does not parse, and otherwise a text of the
    shape [YYYY-MM-DD HH:MM] that shows the date, hour and minute of the
    parsed value. *)
Inductive shown_timestamp (fromisoformat : string -> option datetime)
  : option string -> string -> Prop :=
| shown_missing :
    shown_timestamp fromisoformat None "Unknown"
| shown_unparsable s :
    fromisoformat s = None ->
    shown_timestamp fromisoformat (Some s) "Unknown"
| shown_parsed s dt timestamp :
    fromisoformat s = Some dt ->
    read_ymd_hm timestamp
    = Some (year dt, month dt, day dt, hour dt, minute dt) ->
    shown_timestamp fromisoformat (Some s) timestamp.

(** The fields of a task of the data model; [created] is [None] when the
    dictionary has no [created_at]. *)
Definition task_fields (d : dict) (id : Z) (text : string) (completed : bool)
  (created : option string) : Prop :=
  dict_get "id" d = Some (VInt id)
  /\ dict_get "text" d = Some (VStr text)
  /\ dict_get "completed" d = Some (VBool completed)
  /\ dict_get "created_at" d = VStr <$> created.

(** A task the listing can show: it has its fields, [created_at] apart,
    and when its [created_at] parses, the value has a four-digit year. *)
Definition listable (fromisoformat : string -> option datetime) (task : elem)
  : Prop :=
  exists d id text completed created,
    task = EDict d
    /\ task_fields d id text completed created
    /\ (forall s dt, created = Some s -> fromisoformat s = Some dt ->
                     printable_datetime dt).

(** The line a task is shown as. *)
Definition listed (fromisoformat : string -> option datetime)
  (task : elem) (line : string) : Prop :=
  exists d id text completed created timestamp,
    task = EDict d
    /\ task_fields d id text completed created
    /\ shown_timestamp fromisoformat created timestamp
    /\ line = listing_line id completed text timestamp.

End Spec.

(** ** Sample data for the examples *)

Module Sample.
Import Py Todo.

Definition now : string := "2024-05-01T10:30:00.123456".

Definition task1 : elem := EDict (new_task 1 "Buy milk" now).
Definition task2 : elem := EDict (new_task 2 "Walk the dog" now).

(** Tasks as an edited file may hold them: one without [created_at],
    one whose [created_at] is not a timestamp. *)
Definition task3 : elem :=
  EDict [("id", VInt 3); ("text", VStr "Call home"); ("completed", VBool true)].
Definition task4 : elem :=
  EDict [("id", VInt 4); ("text", VStr "Pay rent"); ("completed", VBool false);
         ("created_at", VStr "yesterday")].

(** A stand-in for [json.load] that knows the documents of the
    examples and rejects every other text. *)
Definition json_load (text : string) : loaded :=
  if String.eqb text "[]" then LList []
  else if String.eqb text (Json.dumps_indent2 [task1; task2])
  then LList [task1; task2]
  else if String.eqb text (Json.dumps_indent2 [task1; task3; task4])
  then LList [task1; task3; task4]
  else if String.eqb text (Json.encode_str "not an array") then LOther
  else LError "Expecting value: line 1 column 1 (char 0)".

(** A stand-in for [datetime.fromisoformat] that knows the timestamp of
    the examples. *)
Definition fromisoformat (s : string) : option datetime :=
  if String.eqb s now then Some (DateTime 2024 5 1 10 30 0 123456) else None.

Definition empty_world : world := World None [].

Definition world_with (text : string) : world := World (Some text) [].

End Sample.

(** ** Vocabulary for arbitrary lists

    The file can hold anything, so the list a command works on may have
    members that are not tasks of the data model.  These definitions
    speak about such lists. *)

Module Behaviour.
Import Py Todo Spec.

(** [task['id'] == id] holds. *)
Definition id_is (id : Z) (task : elem) : Prop :=
  exists v, subscript task "id" = Ok v /\ eq_int v id = true.

(** [task['id']] has a value and [task['id'] == id] does not hold. *)
Definition id_is_not (id : Z) (task : elem) : Prop :=
  exists v, subscript task "id" = Ok v /\ eq_int v id = false.

(** The id of a member as a number: an [int], or a [bool] counted as 1
    or 0. *)
Definition numeric_id (task : elem) : option Z :=
  match subscript task "id" with
  | Ok v => as_int v
  | Raise _ => None
  end.

Fixpoint numeric_ids (tasks : list elem) : option (list Z) :=
  match tasks with
  | [] => Some []
  | task :: rest =>
      n ← numeric_id task;
      ns ← numeric_ids rest;
      Some (n :: ns)
  end.

(** [add_task] called once for each entry of [calls], in order; an
    entry is the time of the call and the text. *)
Fixpoint add_all (calls : list (string * string)) (tasks : list elem)
  : result (list elem) :=
  match calls with
  | [] => Ok tasks
  | (now, text) :: rest =>
      added ← add_task now text tasks;
      add_all rest added.2
  end.

(** The texts of the tasks of a collection, in order. *)
Definition text_of (task : elem) : option scalar :=
  match task with
  | EDict d => dict_get "text" d
  | EScalar _ => None
  end.

(** One character of a JSON string read back from the front of a text:
    the character and the rest of the text. *)
Definition hex_value (c : ascii) : option N :=
  let n := N_of_ascii c in
  if (48 <=? n)%N && (n <=? 57)%N then Some (n - 48)%N
  else if (97 <=? n)%N && (n <=? 102)%N then Some (n - 87)%N
  else None.

Definition unescape_head (s : string) : option (ascii * string) :=
  match s with
  | EmptyString => None
  | String c rest =>
      if negb (N_of_ascii c =? 92)%N then Some (c, rest)
      else
        match rest with
        | EmptyString => None
        | String t rest' =>
            let n := N_of_ascii t in
            if (n =? 34)%N then Some ("034"%char, rest')
            else if (n =? 92)%N then Some ("092"%char, rest')
            else if (n =? 110)%N then Some ("010"%char, rest')
            else if (n =? 114)%N then Some ("013"%char, rest')
            else if (n =? 116)%N then Some ("009"%char, rest')
            else if (n =? 98)%N then Some ("008"%char, rest')
            else if (n =? 102)%N then Some ("012"%char, rest')
            else if (n =? 117)%N then
              match rest' with
              | String h1 (String h2 (String h3 (String h4 rest''))) =>
                  a ← hex_value h1; b ← hex_value h2;
                  c' ← hex_value h3; d ← hex_value h4;
                  if ((a =? 0) && (b =? 0))%N
                  then Some (ascii_of_N (16 * c' + d), rest'')
                  else None
              | _ => None
              end
            else None
        end
  end.

(** A JSON string body read back, with [fuel] bounding the number of
    characters read. *)
Fixpoint unescape (fuel : nat) (s : string) : option string :=
  match fuel with
  | O => None
  | S fuel' =>
      match s with
      | EmptyString => Some EmptyString
      | _ =>
          head ← unescape_head s;
          rest ← unescape fuel' head.2;
          Some (String head.1 rest)
      end
  end.

(** *** Reading back the text that [save_tasks] writes

    A reader for the layout of [Json.dumps_indent2], to state that the
    file determines the collection. *)

(** [s] without the prefix [p], when it starts with [p]. *)
Fixpoint strip (p s : string) : option string :=
  match p with
  | EmptyString => Some s
  | String a p' =>
      match s with
      | String b s' => if Ascii.eqb a b then strip p' s' else None
      | EmptyString => None
      end
  end.

Definition is_quote (c : ascii) : bool := (N_of_ascii c =? 34)%N.

(** The body of a JSON string up to its closing quote, and what
    follows the quote. *)
Fixpoint read_str_body (fuel : nat) (s : string) : option (string * string) :=
  match fuel with
  | O => None
  | S fuel' =>
      match s with
      | EmptyString => None
      | String c rest =>
          if is_quote c then Some (EmptyString, rest)
          else
            head ← unescape_head s;
            r ← read_str_body fuel' head.2;
            Some (String head.1 r.1, r.2)
      end
  end.

Definition read_str (fuel : nat) (s : string) : option (string * string) :=
  body ← strip Json.quote s;
  read_str_body fuel body.

(** The number the leading decimal digits of [s] stand for, after the
    digits that gave [acc], and what follows them. *)
Fixpoint read_digits (acc : Z) (s : string) : Z * string :=
  match s with
  | EmptyString => (acc, s)
  | String c rest =>
      match digit_value c with
      | Some d => read_digits (10 * acc + d) rest
      | None => (acc, s)
      end
  end.

Definition read_int (s : string) : Z * string :=
  match s with
  | String c rest =>
      if Ascii.eqb c "-"
      then let r := read_digits 0 rest in (- r.1, r.2)
      else read_digits 0 s
  | EmptyString => (0, s)
  end.

Definition read_scalar (fuel : nat) (s : string) : option (scalar * string) :=
  match s with
  | EmptyString => None
  | String c _ =>
      if Ascii.eqb c "n" then rest ← strip "null" s; Some (VNone, rest)
      else if Ascii.eqb c "t" then rest ← strip "true" s; Some (VBool true, rest)
      else if Ascii.eqb c "f" then rest ← strip "false" s; Some (VBool false, rest)
      else if is_quote c then r ← read_str fuel s; Some (VStr r.1, r.2)
      else let r := read_int s in Some (VInt r.1, r.2)
  end.

Definition read_item (fuel : nat) (s : string)
  : option ((string * scalar) * string) :=
  k ← read_str fuel s;
  rest ← strip ": " k.2;
  v ← read_scalar fuel rest;
  Some ((k.1, v.1), v.2).

(** Items separated by [sep], at least one. *)
Fixpoint read_items (fuel : nat) (sep : string) (s : string)
  : option (dict * string) :=
  match fuel with
  | O => None
  | S fuel' =>
      item ← read_item (S fuel') s;
      match strip sep item.2 with
      | Some rest =>
          more ← read_items fuel' sep rest;
          Some (item.1 :: more.1, more.2)
      | None => Some ([item.1], item.2)
      end
  end.

Definition read_dict (fuel : nat) (level : nat) (s : string)
  : option (dict * string) :=
  body ← strip "{" s;
  match strip "}" body with
  | Some rest => Some ([], rest)
  | None =>
      let newline_indent := Json.newline +:+ Json.indent (S level) in
      first ← strip newline_indent body;
      items ← read_items fuel ("," +:+ newline_indent) first;
      rest ← strip (Json.newline +:+ Json.indent level +:+ "}") items.2;
      Some (items.1, rest)
  end.

Definition read_elem (fuel : nat) (level : nat) (s : string)
  : option (elem * string) :=
  match s with
  | EmptyString => None
  | String c _ =>
      if Ascii.eqb c "{"
      then r ← read_dict fuel level s; Some (EDict r.1, r.2)
      else r ← read_scalar fuel s; Some (EScalar r.1, r.2)
  end.

(** Members separated by [sep], at least one. *)
Fixpoint read_elems (fuel : nat) (sep : string) (s : string)
  : option (list elem * string) :=
  match fuel with
  | O => None
  | S fuel' =>
      x ← read_elem (S fuel') 1 s;
      match strip sep x.2 with
      | Some rest =>
          more ← read_elems fuel' sep rest;
          Some (x.1 :: more.1, more.2)
      | None => Some ([x.1], x.2)
      end
  end.

(** The collection a text in the layout of [Json.dumps_indent2] stands
    for. *)
Definition read_tasks (fuel : nat) (s : string) : option (list elem) :=
  body ← strip "[" s;
  match strip "]" body with
  | Some rest => if String.eqb rest EmptyString then Some [] else None
  | None =>
      let newline_indent := Json.newline +:+ Json.indent 1 in
      first ← strip newline_indent body;
      elems ← read_elems fuel ("," +:+ newline_indent) first;
      rest ← strip (Json.newline +:+ "]") elems.2;
      if String.eqb rest EmptyString then Some elems.1 else None
  end.

(** A bound on the steps the reader takes on a collection. *)
Definition scalar_weight (v : scalar) : nat :=
  match v with
  | VStr s => String.length s
  | _ => O
  end.

Definition dict_weight (d : dict) : nat :=
  List.length d
  + foldr (fun kv n => (String.length kv.1 + scalar_weight kv.2 + n)%nat) O d.

Definition elem_weight (x : elem) : nat :=
  match x with
  | EDict d => dict_weight d
  | EScalar v => scalar_weight v
  end.

Definition tasks_weight (tasks : list elem) : nat :=
  List.length tasks + foldr (fun x n => (elem_weight x + n)%nat) O tasks.

(** The collection with the first task whose id is [id] completed. *)
Fixpoint mark_completed (id : Z) (tasks : list elem) : list elem :=
  match tasks with
  | [] => []
  | task :: rest =>
      match task with
      | EDict d =>
          if bool_decide (int_id task = Some id)
          then EDict (dict_set "completed" (VBool true) d) :: rest
          else task :: mark_completed id rest
      | EScalar _ => task :: mark_completed id rest
      end
  end.

(** Malformed members for the examples. *)
Definition no_id : elem := EDict [("text", VStr "lost")].
Definition string_id : elem :=
  EDict [("id", VStr "7"); ("text", VStr "seven"); ("completed", VBool false)].
Definition bare_number : elem := EScalar (VInt 5).
Definition null_created : elem :=
  EDict [("id", VInt 5); ("text", VStr "x"); ("completed", VBool false);
         ("created_at", VNone)].

(** A stand-in for [json.load] that knows a file with a member without
    [id] and rejects every other text. *)
Definition json_load (text : string) : loaded :=
  if String.eqb text (Json.dumps_indent2 [Sample.task1; no_id])
  then LList [Sample.task1; no_id]
  else LError "Expecting value: line 1 column 1 (char 0)".

End Behaviour.

(** ** Proofs *)

Import Py Todo Spec.

(** *** Dictionaries *)

Section DictFacts.
Implicit Types (d : dict) (k : string) (v : scalar).

Lemma dict_get_set_eq k v d : dict_get k (dict_set k v d) = Some v.
Proof.
  induction d as [|[k' v'] d IH]; simpl.
  - by rewrite String.eqb_refl.
  - destruct (String.eqb k' k) eqn:E; simpl.
    + by rewrite String.eqb_refl.
    + by rewrite E.
Qed.

Lemma dict_get_set_ne k k' v d :
  k' <> k -> dict_get k' (dict_set k v d) = dict_get k' d.
Proof.
  intros Hne%not_eq_sym%String.eqb_neq.
  induction d as [|[k0 v0] d IH]; simpl.
  - by rewrite Hne.
  - destruct (String.eqb k0 k) eqn:E; simpl.
    + apply String.eqb_eq in E as ->. by rewrite Hne.
    + by rewrite IH.
Qed.

Lemma dict_set_idemp k v d : dict_set k v (dict_set k v d) = dict_set k v d.
Proof.
  induction d as [|[k' v'] d IH]; simpl.
  - by rewrite String.eqb_refl.
  - destruct (String.eqb k' k) eqn:E; simpl.
    + by rewrite String.eqb_refl.
    + rewrite E. by f_equal.
Qed.

(** A value found under a key is a member of the dictionary. *)
Lemma dict_get_elem_of k v d : dict_get k d = Some v -> (k, v) ∈ d.
Proof.
  induction d as [|[k' v'] d IH]; simpl; [done|].
  destruct (String.eqb k' k) eqn:E.
  - apply String.eqb_eq in E as ->. intros [= ->]. left.
  - intros H. right. auto.
Qed.

(** Equal dictionaries hold equal values under every key of the first. *)
Lemma dict_eq_get d1 d2 k v :
  dict_eq d1 d2 = true -> dict_get k d1 = Some v ->
  exists v', dict_get k d2 = Some v' /\ scalar_eq v v' = true.
Proof.
  unfold dict_eq. intros [_ Hall]%andb_true_iff Hget.
  apply dict_get_elem_of, list_elem_of_In in Hget.
  rewrite forallb_forall in Hall. specialize (Hall _ Hget). simpl in Hall.
  destruct (dict_get k d2) as [v'|]; [eauto | done].
Qed.

(** [==] is transitive towards an integer. *)
Lemma scalar_eq_eq_int v v' n :
  scalar_eq v v' = true -> eq_int v' n = true -> eq_int v n = true.
Proof.
  unfold eq_int.
  destruct v, v'; cbn -[Z.eqb]; try done;
    intros H1%Z.eqb_eq H2%Z.eqb_eq; apply Z.eqb_eq; congruence.
Qed.

End DictFacts.

(** *** Collections of tasks with integer ids *)

Section Collections.
Implicit Types (tasks : list elem) (ids : list Z) (task : elem).

Lemma int_id_subscript task n :
  int_id task = Some n -> subscript task "id" = Ok (VInt n).
Proof.
  destruct task as [d|v]; simpl; [|done].
  destruct (dict_get "id" d) as [v|]; [destruct v|]; by intros [= ->].
Qed.

Lemma int_id_dict task n :
  int_id task = Some n ->
  exists d, task = EDict d /\ dict_get "id" d = Some (VInt n).
Proof.
  destruct task as [d|v]; simpl; [|done].
  destruct (dict_get "id" d) as [v|] eqn:E; [destruct v|];
    intros [= ->]; eauto.
Qed.

Lemma task_ids_cons task tasks ids :
  task_ids (task :: tasks) = Some ids <->
  exists n ns, int_id task = Some n /\ task_ids tasks = Some ns /\ ids = n :: ns.
Proof.
  simpl. destruct (int_id task) as [n|]; simpl.
  - destruct (task_ids tasks) as [ns|]; simpl.
    + split; [intros [= <-]; eauto | by intros (? & ? & [= <-] & [= <-] & ->)].
    + split; [done | by intros (? & ? & _ & ? & _)].
  - split; [done | by intros (? & ? & ? & _)].
Qed.

Lemma task_ids_Forall2 tasks ids :
  task_ids tasks = Some ids <-> Forall2 (fun t n => int_id t = Some n) tasks ids.
Proof.
  revert ids. induction tasks as [|task tasks IH]; intros ids.
  - simpl. split; [intros [= <-]; constructor | by inversion 1].
  - rewrite task_ids_cons. split.
    + intros (n & ns & ? & ?%IH & ->). by constructor.
    + inversion 1; subst. eexists _, _. by rewrite IH.
Qed.

Lemma task_ids_app tasks1 tasks2 ids :
  task_ids (tasks1 ++ tasks2) = Some ids <->
  exists ids1 ids2,
    task_ids tasks1 = Some ids1 /\ task_ids tasks2 = Some ids2
    /\ ids = ids1 ++ ids2.
Proof.
  rewrite task_ids_Forall2. split.
  - intros (l1 & l2 & ? & ? & ->)%Forall2_app_inv_l.
    exists l1, l2. by rewrite !task_ids_Forall2.
  - intros (l1 & l2 & ?%task_ids_Forall2 & ?%task_ids_Forall2 & ->).
    by apply Forall2_app.
Qed.

(** An id of the collection belongs to a first task, and no task before
    it has that id. *)
Lemma task_ids_split tasks ids id :
  task_ids tasks = Some ids -> id ∈ ids ->
  exists l1 task l2,
    tasks = l1 ++ task :: l2 /\ int_id task = Some id
    /\ Forall (fun t => exists m, int_id t = Some m /\ m <> id) l1.
Proof.
  revert ids. induction tasks as [|t tasks IH]; intros ids.
  - intros [= <-]. by intros ?%elem_of_nil.
  - intros (n & ns & Hn & Hns & ->)%task_ids_cons Hin.
    destruct (decide (n = id)) as [->|Hne].
    + exists [], t, tasks. by repeat split.
    + apply elem_of_cons in Hin as [->|Hin]; [done|].
      destruct (IH _ Hns Hin) as (l1 & task & l2 & -> & ? & ?).
      exists (t :: l1), task, l2. repeat split; [done|].
      constructor; eauto.
Qed.

(** No task has an id that is outside the ids of the collection. *)
Lemma task_ids_absent tasks ids id :
  task_ids tasks = Some ids -> id ∉ ids ->
  Forall (fun t => exists m, int_id t = Some m /\ m <> id) tasks.
Proof.
  rewrite task_ids_Forall2. induction 1 as [|t n tasks ns]; intros Hnin.
  - constructor.
  - apply not_elem_of_cons in Hnin as [? ?]. constructor; eauto.
Qed.

End Collections.

(** *** Task Repository *)

Section Repository.
Implicit Types (tasks : list elem) (ids : list Z) (task : elem) (id : Z).

Lemma foldl_max_ge_init c ns : c <= foldl Z.max c ns.
Proof.
  revert c. induction ns as [|n ns IH]; intros c; simpl; [lia|].
  etrans; [|apply IH]. lia.
Qed.

Lemma foldl_max_ge c ns i : i ∈ c :: ns -> i <= foldl Z.max c ns.
Proof.
  revert c. induction ns as [|n ns IH]; intros c; simpl.
  - intros ->%list_elem_of_singleton. lia.
  - intros [->|[->|Hin]%elem_of_cons]%elem_of_cons.
    + etrans; [|apply foldl_max_ge_init]. lia.
    + etrans; [|apply foldl_max_ge_init]. lia.
    + apply IH. by right.
Qed.

Lemma foldl_max_elem_of c ns : foldl Z.max c ns ∈ c :: ns.
Proof.
  revert c. induction ns as [|n ns IH]; intros c; simpl; [left|].
  pose proof (IH (Z.max c n)) as [Heq|Hin]%elem_of_cons.
  - rewrite Heq. destruct (Z.max_spec c n) as [Hm|Hm];
      destruct Hm as [_ Hm]; rewrite Hm; [right|]; left.
  - right. by right.
Qed.

Lemma max_id_from_ints c tasks ns :
  task_ids tasks = Some ns ->
  max_id_from (VInt c) tasks = Ok (VInt (foldl Z.max c ns)).
Proof.
  revert c ns. induction tasks as [|task tasks IH]; intros c ns.
  - by intros [= <-].
  - intros (n & ns' & Hn & Hns & ->)%task_ids_cons.
    cbn [max_id_from]. rewrite (int_id_subscript _ _ Hn). cbn.
    rewrite <- (IH _ _ Hns). f_equal.
    unfold Z.max. rewrite Z.ltb_compare.
    by destruct (c ?= n).
Qed.

Lemma get_next_id_ints task tasks n ns :
  task_ids (task :: tasks) = Some (n :: ns) ->
  get_next_id (task :: tasks) = Ok (foldl Z.max n ns + 1).
Proof.
  intros (n' & ns' & Hn & Hns & [= <- <-])%task_ids_cons.
  cbn [get_next_id]. rewrite (int_id_subscript _ _ Hn). cbn.
  by rewrite (max_id_from_ints _ _ _ Hns).
Qed.

(** The search walks past the tasks with another id. *)
Lemma find_task_from_others i id l1 rest :
  others id l1 ->
  find_task_from i id (l1 ++ rest)
  = find_task_from (i + List.length l1) id rest.
Proof.
  intros H. revert i. induction H as [|t l1 (m & Hm & Hne) _ IH]; intros i.
  - simpl. by rewrite Nat.add_0_r.
  - cbn [app find_task_from]. rewrite (int_id_subscript _ _ Hm). cbn.
    apply Z.eqb_neq in Hne as ->. rewrite IH. simpl. f_equal. lia.
Qed.

Lemma find_task_by_id_found id l1 task l2 :
  others id l1 -> int_id task = Some id ->
  find_task_by_id id (l1 ++ task :: l2) = Ok (Some (List.length l1, task)).
Proof.
  intros Hl1 Hid. unfold find_task_by_id.
  rewrite find_task_from_others by done.
  cbn [find_task_from]. rewrite (int_id_subscript _ _ Hid). cbn.
  by rewrite Z.eqb_refl.
Qed.

Lemma find_task_by_id_absent id tasks :
  others id tasks -> find_task_by_id id tasks = Ok None.
Proof.
  intros H. unfold find_task_by_id.
  rewrite <- (app_nil_r tasks), find_task_from_others by done. done.
Qed.

(** A task with another id does not compare equal to the task found. *)
Lemma elem_eq_other_id id t task :
  (exists m, int_id t = Some m /\ m <> id) -> int_id task = Some id ->
  elem_eq t task = false.
Proof.
  intros (m & (d & -> & Hd)%int_id_dict & Hne) (d' & -> & Hd')%int_id_dict.
  simpl. apply not_true_is_false. intros Heq.
  destruct (dict_eq_get _ _ _ _ Heq Hd) as (v' & Hv' & Hs).
  rewrite Hd' in Hv'. injection Hv' as <-.
  cbn in Hs. by apply Z.eqb_eq in Hs.
Qed.

(** [tasks.remove(task)] takes out the task found and nothing else. *)
Lemma list_remove_found id l1 task l2 :
  others id l1 -> int_id task = Some id ->
  list_remove (List.length l1) task (l1 ++ task :: l2) = Ok (l1 ++ l2).
Proof.
  intros Hl1 Hid. unfold list_remove.
  change (List.length l1) with (0 + List.length l1)%nat. generalize 0%nat.
  induction Hl1 as [|t l1 Ht _ IH]; intros j.
  - cbn. by rewrite Nat.add_0_r, Nat.eqb_refl.
  - cbn [app list_remove_from List.length].
    rewrite (elem_eq_other_id _ _ _ Ht Hid).
    replace (j =? j + S (List.length l1))%nat with false
      by (symmetry; apply Nat.eqb_neq; lia).
    replace (j + S (List.length l1))%nat with (S j + List.length l1)%nat by lia.
    cbn. by rewrite IH.
Qed.

Lemma complete_task_found id l1 d l2 :
  others id l1 -> dict_get "id" d = Some (VInt id) ->
  complete_task id (l1 ++ EDict d :: l2)
  = Ok (true, l1 ++ EDict (dict_set "completed" (VBool true) d) :: l2).
Proof.
  intros Hl1 Hd. unfold complete_task.
  rewrite find_task_by_id_found by (done || by simpl; rewrite Hd).
  cbn. do 2 f_equal.
  rewrite <- (Nat.add_0_r (List.length l1)). by rewrite insert_app_r.
Qed.

Lemma delete_task_found id l1 task l2 :
  others id l1 -> int_id task = Some id ->
  delete_task id (l1 ++ task :: l2) = Ok (true, l1 ++ l2).
Proof.
  intros Hl1 Hid. unfold delete_task.
  rewrite find_task_by_id_found by done. cbn.
  by rewrite (list_remove_found id).
Qed.

End Repository.

(** *** Properties of the Task Repository *)

Import Sample.

(** C4: [get_next_id] returns 1 on the empty collection; on any other
    collection it returns [m + 1], where [m] is an id of the collection
    and no id of the collection is larger. *)
Theorem get_next_id_max_plus_one (tasks : list elem) (ids : list Z) :
  task_ids tasks = Some ids ->
  (tasks = [] -> get_next_id tasks = Ok 1)
  /\ (tasks <> [] ->
      exists m, m ∈ ids /\ (forall i, i ∈ ids -> i <= m)
                /\ get_next_id tasks = Ok (m + 1)).
Proof.
  intros Hids. split; [by intros ->|].
  destruct tasks as [|task tasks]; [done|]. intros _.
  pose proof Hids as (n & ns & _ & _ & ->)%task_ids_cons.
  exists (foldl Z.max n ns). split; [apply foldl_max_elem_of|].
  split; [apply foldl_max_ge|]. by apply get_next_id_ints.
Qed.

Lemma get_next_id_max_plus_one_witness :
  exists m, m ∈ [1; 2] /\ (forall i, i ∈ [1; 2] -> i <= m)
            /\ get_next_id [task1; task2] = Ok (m + 1).
Proof.
  apply (get_next_id_max_plus_one [task1; task2] [1; 2]); [reflexivity|done].
Defined.

(** Every collection of tasks with integer ids has a next id. *)
Lemma get_next_id_total (tasks : list elem) (ids : list Z) :
  task_ids tasks = Some ids ->
  exists n, get_next_id tasks = Ok n
            /\ (ids = [] -> n = 1)
            /\ (forall j, j ∈ ids -> j < n)
            /\ (ids <> [] -> n - 1 ∈ ids).
Proof.
  intros Hids. destruct tasks as [|task tasks].
  - injection Hids as <-. exists 1. repeat split; try done.
    by intros j ?%elem_of_nil.
  - pose proof Hids as (n & ns & _ & _ & ->)%task_ids_cons.
    exists (foldl Z.max n ns + 1). split; [by apply get_next_id_ints|].
    split; [done|]. split.
    + intros j Hj%(foldl_max_ge n ns). lia.
    + intros _. replace (foldl Z.max n ns + 1 - 1) with (foldl Z.max n ns) by lia.
      apply foldl_max_elem_of.
Qed.

(** C5: [add_task] builds a task with the next id, the given text (any
    string, the empty one too), [completed] false and the timestamp of
    the call, puts it after the tasks of the collection, which stay as
    they are, and returns it. *)
Theorem add_task_appends (now text : string) (tasks : list elem) (ids : list Z) :
  task_ids tasks = Some ids ->
  exists id task,
    get_next_id tasks = Ok id
    /\ add_task now text tasks = Ok (task, tasks ++ [EDict task])
    /\ task = [("id", VInt id); ("text", VStr text);
               ("completed", VBool false); ("created_at", VStr now)]
    /\ add_task now EmptyString tasks
       = Ok (new_task id EmptyString now,
             tasks ++ [EDict (new_task id EmptyString now)]).
Proof.
  intros (id & Hid & _)%get_next_id_total.
  exists id, (new_task id text now). unfold add_task. rewrite Hid. by cbn.
Qed.

Lemma add_task_appends_witness :
  exists id task,
    get_next_id [task1; task2] = Ok id
    /\ add_task now "Call home" [task1; task2]
       = Ok (task, [task1; task2] ++ [EDict task])
    /\ task = [("id", VInt id); ("text", VStr "Call home");
               ("completed", VBool false); ("created_at", VStr now)]
    /\ add_task now EmptyString [task1; task2]
       = Ok (new_task id EmptyString now,
             [task1; task2] ++ [EDict (new_task id EmptyString now)]).
Proof.
  apply (add_task_appends now "Call home" [task1; task2] [1; 2]). reflexivity.
Defined.

(** C6: completing a task of the collection twice gives the same
    collection and the same answer as completing it once. *)
Theorem complete_task_idempotent (id : Z) (tasks : list elem) (ids : list Z) :
  task_ids tasks = Some ids -> id ∈ ids ->
  exists tasks',
    complete_task id tasks = Ok (true, tasks')
    /\ complete_task id tasks' = Ok (true, tasks').
Proof.
  intros Hids Hin.
  destruct (task_ids_split _ _ _ Hids Hin)
    as (l1 & task & l2 & -> & (d & -> & Hd)%int_id_dict & Hl1).
  eexists. split; [by apply complete_task_found|].
  rewrite complete_task_found; [|done|by rewrite dict_get_set_ne].
  by rewrite dict_set_idemp.
Qed.

Lemma complete_task_idempotent_witness :
  exists tasks',
    complete_task 2 [task1; task2] = Ok (true, tasks')
    /\ complete_task 2 tasks' = Ok (true, tasks').
Proof.
  apply (complete_task_idempotent 2 [task1; task2] [1; 2]);
    [reflexivity | by right; left].
Defined.

(** C10: a successful [complete_task] sets the [completed] field of the
    task with the given id and touches nothing else: the other fields of
    that task, every other position of the list, its length and the ids
    in order are as before. *)
Theorem complete_task_frame (id : Z) (tasks : list elem) (ids : list Z) :
  task_ids tasks = Some ids -> id ∈ ids ->
  exists (i : nat) (d d' : dict) (tasks' : list elem),
    complete_task id tasks = Ok (true, tasks')
    /\ tasks !! i = Some (EDict d)
    /\ dict_get "id" d = Some (VInt id)
    /\ tasks' !! i = Some (EDict d')
    /\ dict_get "completed" d' = Some (VBool true)
    /\ (forall k, k <> "completed" -> dict_get k d' = dict_get k d)
    /\ (forall j, j <> i -> tasks' !! j = tasks !! j)
    /\ List.length tasks' = List.length tasks
    /\ task_ids tasks' = Some ids.
Proof.
  intros Hids Hin.
  destruct (task_ids_split _ _ _ Hids Hin)
    as (l1 & task & l2 & -> & Htask & Hl1).
  pose proof Htask as (d & -> & Hd)%int_id_dict.
  set (d' := dict_set "completed" (VBool true) d).
  exists (List.length l1), d, d', (l1 ++ EDict d' :: l2).
  split; [by apply complete_task_found|].
  split; [by rewrite list_lookup_middle|].
  split; [done|].
  split; [by rewrite list_lookup_middle|].
  split; [apply dict_get_set_eq|].
  split; [intros k Hk; by apply dict_get_set_ne|].
  split.
  { intros j Hj. destruct (decide (j < List.length l1)%nat).
    - by rewrite !lookup_app_l.
    - rewrite !lookup_app_r by lia.
      destruct (j - List.length l1)%nat eqn:E; [lia|done]. }
  split; [by rewrite !length_app|].
  apply task_ids_app in Hids as (ids1 & ids2 & H1 & H2 & ->).
  apply task_ids_app. exists ids1, ids2. split; [done|]. split; [|done].
  apply task_ids_cons in H2 as (n & ns & Hn & Hns & ->).
  apply task_ids_cons. exists n, ns. split; [|done].
  rewrite <- Hn. simpl. unfold d'. by rewrite dict_get_set_ne.
Qed.

Lemma complete_task_frame_witness :
  exists (i : nat) (d d' : dict) (tasks' : list elem),
    complete_task 1 [task1; task2] = Ok (true, tasks')
    /\ [task1; task2] !! i = Some (EDict d)
    /\ dict_get "id" d = Some (VInt 1)
    /\ tasks' !! i = Some (EDict d')
    /\ dict_get "completed" d' = Some (VBool true)
    /\ (forall k, k <> "completed" -> dict_get k d' = dict_get k d)
    /\ (forall j, j <> i -> tasks' !! j = [task1; task2] !! j)
    /\ List.length tasks' = List.length [task1; task2]
    /\ task_ids tasks' = Some [1; 2].
Proof.
  apply (complete_task_frame 1 [task1; task2] [1; 2]); [reflexivity | by left].
Defined.

(** C7: when the id is in the collection, [delete_task] answers [True]
    and takes out the first task with that id, the tasks before and
    after it staying in their order; with unique ids no task with that
    id is left.  When the id is not in the collection it answers
    [False]. *)
Theorem delete_task_removes (id : Z) (tasks : list elem) (ids : list Z) :
  task_ids tasks = Some ids ->
  (id ∈ ids ->
   exists l1 task l2,
     tasks = l1 ++ task :: l2
     /\ int_id task = Some id
     /\ (forall t, t ∈ l1 -> int_id t <> Some id)
     /\ (NoDup ids -> forall t, t ∈ l2 -> int_id t <> Some id)
     /\ delete_task id tasks = Ok (true, l1 ++ l2))
  /\ (id ∉ ids -> delete_task id tasks = Ok (false, tasks)).
Proof.
  intros Hids. split.
  - intros Hin.
    destruct (task_ids_split _ _ _ Hids Hin)
      as (l1 & task & l2 & -> & Htask & Hl1).
    exists l1, task, l2. split; [done|]. split; [done|]. split.
    { intros t Ht. unfold others in Hl1. rewrite Forall_forall in Hl1.
      destruct (Hl1 _ Ht) as (m & -> & ?). congruence. }
    split; [|by apply delete_task_found].
    intros Hnodup t Ht Hid.
    apply task_ids_app in Hids as (ids1 & ids2 & _ & H2 & ->).
    apply task_ids_cons in H2 as (n & ns & Hn & Hns & ->).
    assert (n = id) as -> by congruence.
    apply NoDup_app in Hnodup as (_ & _ & [Hnotin _]%NoDup_cons).
    apply Hnotin. apply task_ids_Forall2 in Hns.
    apply list_elem_of_lookup in Ht as [j Hj].
    destruct (Forall2_lookup_l _ _ _ _ _ Hns Hj) as (m & Hm & Hmid).
    assert (m = id) as -> by congruence.
    by eapply list_elem_of_lookup_2.
  - intros Hnin. unfold delete_task.
    rewrite find_task_by_id_absent; [done|]. by eapply task_ids_absent.
Qed.

Lemma delete_task_removes_witness :
  (exists l1 task l2,
     [task1; task2; task3] = l1 ++ task :: l2
     /\ int_id task = Some 2
     /\ (forall t, t ∈ l1 -> int_id t <> Some 2)
     /\ (NoDup [1; 2; 3] -> forall t, t ∈ l2 -> int_id t <> Some 2)
     /\ delete_task 2 [task1; task2; task3] = Ok (true, l1 ++ l2))
  /\ delete_task 7 [task1; task2; task3] = Ok (false, [task1; task2; task3]).
Proof.
  destruct (delete_task_removes 2 [task1; task2; task3] [1; 2; 3] eq_refl)
    as [Hfound _].
  destruct (delete_task_removes 7 [task1; task2; task3] [1; 2; 3] eq_refl)
    as [_ Habsent].
  split.
  - apply Hfound. right; left.
  - apply Habsent. rewrite !not_elem_of_cons. repeat split; try lia.
    apply not_elem_of_nil.
Defined.

(** C1, as the code has it: after [delete_task] of an id of the
    collection, [add_task] gives the new task the largest remaining id
    plus 1 (1 when no task remains).  The new id is above every id that
    is still in the collection; it is above the deleted id when the
    deleted id was not the largest. *)
Theorem delete_then_add_next_id
  (id : Z) (now text : string) (tasks : list elem) (ids : list Z) :
  task_ids tasks = Some ids -> id ∈ ids ->
  exists tasks1 ids1 n,
    delete_task id tasks = Ok (true, tasks1)
    /\ task_ids tasks1 = Some ids1
    /\ add_task now text tasks1
       = Ok (new_task n text now, tasks1 ++ [EDict (new_task n text now)])
    /\ (ids1 = [] -> n = 1)
    /\ (ids1 <> [] -> n - 1 ∈ ids1)
    /\ (forall j, j ∈ ids1 -> j < n)
    /\ ((exists j, j ∈ ids1 /\ id <= j) -> id < n).
Proof.
  intros Hids Hin.
  destruct (task_ids_split _ _ _ Hids Hin)
    as (l1 & task & l2 & -> & Htask & Hl1).
  apply task_ids_app in Hids as (ids1 & ids2 & H1 & H2 & ->).
  apply task_ids_cons in H2 as (m & ns & _ & Hns & ->).
  assert (task_ids (l1 ++ l2) = Some (ids1 ++ ns)) as Hrest.
  { apply task_ids_app. by exists ids1, ns. }
  destruct (get_next_id_total _ _ Hrest) as (n & Hn & Hempty & Habove & Hmem).
  exists (l1 ++ l2), (ids1 ++ ns), n.
  split; [by apply delete_task_found|]. split; [done|].
  split; [unfold add_task; by rewrite Hn|].
  split; [done|]. split; [done|]. split; [done|].
  intros (j & Hj%Habove & ?). lia.
Qed.

Lemma delete_then_add_next_id_witness :
  exists tasks1 ids1 n,
    delete_task 1 [task1; task2] = Ok (true, tasks1)
    /\ task_ids tasks1 = Some ids1
    /\ add_task now "Call home" tasks1
       = Ok (new_task n "Call home" now,
             tasks1 ++ [EDict (new_task n "Call home" now)])
    /\ (ids1 = [] -> n = 1)
    /\ (ids1 <> [] -> n - 1 ∈ ids1)
    /\ (forall j, j ∈ ids1 -> j < n)
    /\ ((exists j, j ∈ ids1 /\ 1 <= j) -> 1 < n).
Proof.
  apply (delete_then_add_next_id 1 now "Call home" [task1; task2] [1; 2]);
    [reflexivity | by left].
Defined.

(** C1, as the specification words it, fails: deleting the task with the
    largest id, 2, and adding a task gives the new task the id 2
    again. *)
Lemma delete_then_add_reuses_id : ~ no_id_reuse [task1; task2] 2.
Proof.
  intros H.
  apply (H now "Call home" [task1]
           (new_task 2 "Call home" now,
            [task1; EDict (new_task 2 "Call home" now)])); reflexivity.
Qed.

(** *** Strings *)

Section StringFacts.

Lemma list_ascii_of_string_app s1 s2 :
  list_ascii_of_string (s1 +:+ s2)
  = list_ascii_of_string s1 ++ list_ascii_of_string s2.
Proof. induction s1 as [|c s1 IH]; [done|]. cbn. by rewrite <- IH. Qed.

Lemma string_app_inj_l s1 s2 t : s1 +:+ t = s2 +:+ t -> s1 = s2.
Proof.
  intros H%(f_equal list_ascii_of_string).
  rewrite !list_ascii_of_string_app in H. apply app_inv_tail in H.
  rewrite <- (string_of_list_ascii_of_string s1),
          <- (string_of_list_ascii_of_string s2).
  by rewrite H.
Qed.

(** The message names the id: two ids give two messages. *)
Lemma not_found_message_inj id id' :
  not_found_message id = not_found_message id' -> id = id'.
Proof.
  unfold not_found_message. intros H%(inj (String.app _)).
  apply string_app_inj_l in H. by apply (inj pretty) in H.
Qed.


End StringFacts.

(** *** Properties of the Storage Codec and the Command Handlers *)

Section Commands.
Variable json_load : string -> loaded.
Variable fromisoformat : string -> option datetime.

Lemma world_eta w : World (file w) (log w) = w.
Proof. by destruct w. Qed.

(** The corruption branch of [load_tasks]. *)
Lemma reinitialize_spec e w :
  reinitialize e w
  = (World (Some "[]")
           (log w ++ [EStderr (corrupted_message e); EOpenW; EWrite "[]"]),
     Returns []).
Proof.
  unfold reinitialize, io_bind, eprint, emit, init_file, io_ret.
  unfold run_steps, write, open_w. cbn. by rewrite <- !app_assoc.
Qed.


(** C3: for an id that is not in the collection, [complete_task] and
    [delete_task] answer [False] and leave the list as it is; the
    handlers of [complete] and [delete] then write nothing to the
    file, print on the error stream a message that names the id, and
    exit with code 1. *)
Theorem missing_id_is_reported
  (id : Z) (tasks : list elem) (ids : list Z) (w w1 : world) :
  task_ids tasks = Some ids -> id ∉ ids ->
  load_tasks json_load w = (w1, Returns tasks) ->
  complete_task id tasks = Ok (false, tasks)
  /\ delete_task id tasks = Ok (false, tasks)
  /\ handle_complete json_load id w
     = (World (file w1) (log w1 ++ [EStderr (not_found_message id)]), Exits 1)
  /\ handle_delete json_load id w
     = (World (file w1) (log w1 ++ [EStderr (not_found_message id)]), Exits 1)
  /\ not_found_message id = "Error: Task #" +:+ pretty id +:+ " not found"
  /\ (forall id', not_found_message id' = not_found_message id -> id' = id).
Proof.
  intros Hids Hnin Hload.
  assert (find_task_by_id id tasks = Ok None) as Hfind.
  { apply find_task_by_id_absent. by eapply task_ids_absent. }
  assert (complete_task id tasks = Ok (false, tasks)) as Hc.
  { unfold complete_task. by rewrite Hfind. }
  assert (delete_task id tasks = Ok (false, tasks)) as Hd.
  { unfold delete_task. by rewrite Hfind. }
  split; [done|]. split; [done|].
  split; [|split].
  - unfold handle_complete, io_bind. by rewrite Hload, Hc.
  - unfold handle_delete, io_bind. by rewrite Hload, Hd.
  - split; [done|]. intros id'. apply not_found_message_inj.
Qed.

End Commands.

(** *** Timestamps *)

Section Timestamps.

Lemma digit_value_digit n : digit_value (digit n) = Some (n `mod` 10).
Proof.
  pose proof (Z.mod_pos_bound n 10 eq_refl) as Hn.
  unfold digit_value, is_digit, digit.
  rewrite N_ascii_embedding by lia.
  replace (48 <=? 48 + Z.to_N (n `mod` 10))%N with true
    by (symmetry; apply N.leb_le; lia).
  replace (48 + Z.to_N (n `mod` 10) <=? 57)%N with true
    by (symmetry; apply N.leb_le; lia).
  cbn [andb]. f_equal. lia.
Qed.

Lemma read_pad2 n :
  0 <= n <= 99 -> read_number (list_ascii_of_string (pad2 n)) = Some n.
Proof.
  intros Hn. unfold pad2, read_number. cbn [list_ascii_of_string foldl].
  rewrite !digit_value_digit. cbn [mbind option_bind]. f_equal.
  Z.to_euclidean_division_equations. lia.
Qed.

Lemma read_pad4 n :
  0 <= n <= 9999 -> read_number (list_ascii_of_string (pad4 n)) = Some n.
Proof.
  intros Hn. unfold pad4, pad2, read_number.
  cbn [list_ascii_of_string foldl].
  rewrite !digit_value_digit. cbn [mbind option_bind]. f_equal.
  Z.to_euclidean_division_equations. lia.
Qed.

(** The text [strftime] gives reads back as the date, hour and minute. *)
Lemma read_strftime dt :
  printable_datetime dt ->
  read_ymd_hm (strftime_ymd_hm dt)
  = Some (year dt, month dt, day dt, hour dt, minute dt).
Proof.
  intros (Hy & Hm & Hd & Hh & Hn).
  pose proof (read_pad4 (year dt)) as Ry.
  pose proof (read_pad2 (month dt)) as Rm.
  pose proof (read_pad2 (day dt)) as Rd.
  pose proof (read_pad2 (hour dt)) as Rh.
  pose proof (read_pad2 (minute dt)) as Rn.
  unfold read_ymd_hm, strftime_ymd_hm.
  unfold pad4, pad2 in *.
  cbv [String.append list_ascii_of_string] in *.
  cbn [Ascii.eqb Bool.eqb andb].
  rewrite Ry, Rm, Rd, Rh, Rn by lia. done.
Qed.

End Timestamps.

(** *** The listing *)

Section Listing.
Variable json_load : string -> loaded.
Variable fromisoformat : string -> option datetime.

Lemma format_task_listable task :
  listable fromisoformat task ->
  exists line,
    format_task fromisoformat task = Ok line
    /\ listed fromisoformat task line.
Proof.
  intros (d & id & text & completed & created & -> & Hfields & Hprint).
  pose proof Hfields as (Hid & Htext & Hc & Hcreated).
  unfold format_task, format_timestamp. cbn [subscript].
  rewrite Hid, Htext, Hc, Hcreated.
  destruct created as [s|]; cbn.
  - destruct (fromisoformat s) as [dt|] eqn:Hs; cbn.
    + eexists. split; [done|].
      exists d, id, text, completed, (Some s), (strftime_ymd_hm dt).
      repeat split; try done.
      eapply shown_parsed; [done|]. apply read_strftime. by eapply Hprint.
    + eexists. split; [done|].
      exists d, id, text, completed, (Some s), "Unknown".
      repeat split; try done. by apply shown_unparsable.
  - eexists. split; [done|].
    exists d, id, text, completed, None, "Unknown".
    repeat split; try done. apply shown_missing.
Qed.



End Listing.

(** *** Saving *)

Section Saving.

Lemma string_app_assoc s1 s2 s3 : (s1 +:+ s2) +:+ s3 = s1 +:+ (s2 +:+ s3).
Proof. induction s1 as [|c s1 IH]; [done|]. cbv [String.append] in *. by f_equal. Qed.

Lemma string_app_cons c s t : String c s +:+ t = String c (s +:+ t).
Proof. done. Qed.

Lemma string_app_nil_l t : EmptyString +:+ t = t.
Proof. done. Qed.


End Saving.




(** *** Sample runs *)


(** A file that holds the JSON string [not an array] is reset too. *)
Example load_tasks_not_an_array :
  load_tasks Sample.json_load (world_with (Json.encode_str "not an array"))
  = (World (Some "[]")
       [EStderr "Error: Corrupted tasks file detected (Tasks file must contain a JSON array). Reinitializing...";
        EOpenW; EWrite "[]"],
     Returns []).
Proof. reflexivity. Qed.

(** A missing file is created with the empty array, without a
    diagnostic. *)
Example load_tasks_missing_file :
  load_tasks Sample.json_load empty_world
  = (World (Some "[]") [EOpenW; EWrite "[]"], Returns []).
Proof. reflexivity. Qed.

Lemma missing_id_is_reported_witness :
  let tasks := [task1; task2] in
  let w := world_with (Json.dumps_indent2 tasks) in
  complete_task 7 tasks = Ok (false, tasks)
  /\ delete_task 7 tasks = Ok (false, tasks)
  /\ handle_complete Sample.json_load 7 w
     = (World (file w) (log w ++ [EStderr (not_found_message 7)]), Exits 1)
  /\ handle_delete Sample.json_load 7 w
     = (World (file w) (log w ++ [EStderr (not_found_message 7)]), Exits 1)
  /\ not_found_message 7 = "Error: Task #" +:+ pretty 7 +:+ " not found"
  /\ (forall id', not_found_message id' = not_found_message 7 -> id' = 7).
Proof.
  intros tasks w.
  apply (missing_id_is_reported Sample.json_load 7 tasks [1; 2] w w).
  - reflexivity.
  - rewrite !not_elem_of_cons. repeat split; try lia. apply not_elem_of_nil.
  - reflexivity.
Defined.

(** The second scenario of the specification: [complete 99] on an empty
    collection. *)
Example complete_99_on_empty :
  handle_complete Sample.json_load 99 (world_with "[]")
  = (World (Some "[]") [EStderr "Error: Task #99 not found"], Exits 1).
Proof. reflexivity. Qed.

(** A successful [complete] saves the collection and confirms on the
    standard output. *)
Example complete_2_saves :
  handle_complete Sample.json_load 2
    (world_with (Json.dumps_indent2 [task1; task2]))
  = (let tasks' :=
       [task1;
        EDict [("id", VInt 2); ("text", VStr "Walk the dog");
               ("completed", VBool true); ("created_at", VStr now)]] in
     World (Some (Json.dumps_indent2 tasks'))
           [EOpenW; EWrite (Json.dumps_indent2 tasks');
            EStdout "Marked task #2 as complete"],
     Returns tt).
Proof. reflexivity. Qed.

Lemma sample_tasks_listable :
  Forall (listable Sample.fromisoformat) [task1; task3; task4].
Proof.
  repeat constructor.
  - exists (new_task 1 "Buy milk" now), 1, "Buy milk", false, (Some now).
    split; [done|]. split; [by repeat split|].
    intros s dt [= <-] [= <-]. unfold printable_datetime. simpl. lia.
  - eexists _, 3, "Call home", true, None.
    split; [done|]. split; [by repeat split|]. done.
  - eexists _, 4, "Pay rent", false, (Some "yesterday").
    split; [done|]. split; [by repeat split|].
    by intros s dt [= <-] ?.
Qed.


(** The lines of that run. *)
Example list_sample_lines :
  (handle_list Sample.json_load Sample.fromisoformat
     (world_with (Json.dumps_indent2 [task1; task3; task4]))).1.(log)
  = [EStdout "[1] [ ] Buy milk (2024-05-01 10:30)";
     EStdout ("[3] [" +:+ done_mark +:+ "] Call home (Unknown)");
     EStdout "[4] [ ] Pay rent (Unknown)"].
Proof. reflexivity. Qed.

Example list_empty_collection :
  handle_list Sample.json_load Sample.fromisoformat (world_with "[]")
  = (World (Some "[]") [EStdout "No tasks found."], Returns tt).
Proof. reflexivity. Qed.

(** Outside the data model: a [created_at] that is not a string, such
    as JSON [null], is neither missing nor a text that fails to parse;
    [datetime.fromisoformat] raises [TypeError] on it, which
    [format_task] does not catch. *)
Example format_task_created_at_null :
  format_task Sample.fromisoformat
    (EDict [("id", VInt 5); ("text", VStr "x"); ("completed", VBool false);
            ("created_at", VNone)])
  = Raise TypeError.
Proof. reflexivity. Qed.

(** ** Further properties *)

Import Behaviour.

(** *** The search on arbitrary lists *)

Section Search.
Implicit Types (tasks : list elem) (task : elem) (id : Z) (e : exn).

Lemma subscript_raises task k e :
  subscript task k = Raise e -> e = KeyError \/ e = TypeError.
Proof.
  destruct task as [d|v]; simpl.
  - destruct (dict_get k d); [done|]. intros [= <-]. by left.
  - intros [= <-]. by right.
Qed.

Lemma find_task_from_pass i id l1 rest :
  Forall (id_is_not id) l1 ->
  find_task_from i id (l1 ++ rest)
  = find_task_from (i + List.length l1) id rest.
Proof.
  intros H. revert i. induction H as [|t l1 (v & Hv & Hne) _ IH]; intros i.
  - simpl. by rewrite Nat.add_0_r.
  - cbn [app find_task_from]. rewrite Hv. cbn. rewrite Hne, IH.
    simpl. f_equal. lia.
Qed.

Lemma find_task_from_hit i id task rest :
  id_is id task -> find_task_from i id (task :: rest) = Ok (Some (i, task)).
Proof. intros (v & Hv & Heq). cbn [find_task_from]. rewrite Hv. cbn. by rewrite Heq. Qed.

Lemma find_task_from_raise i id task rest e :
  subscript task "id" = Raise e -> find_task_from i id (task :: rest) = Raise e.
Proof. intros Hv. cbn [find_task_from]. by rewrite Hv. Qed.

(** Every list is passed whole by the search, or has a first member at
    which the search stops: a match, or a member without a usable
    [id]. *)
Lemma search_cases id tasks :
  Forall (id_is_not id) tasks
  \/ exists l1 task l2,
       tasks = l1 ++ task :: l2 /\ Forall (id_is_not id) l1
       /\ (id_is id task \/ exists e, subscript task "id" = Raise e).
Proof.
  induction tasks as [|t tasks IH]; [by left|].
  destruct (subscript t "id") as [v|e] eqn:Hv.
  - destruct (eq_int v id) eqn:Heq.
    + right. exists [], t, tasks. split; [done|]. split; [constructor|].
      left. by exists v.
    + destruct IH as [Hall|(l1 & task & l2 & -> & Hl1 & Hstop)].
      * left. constructor; [by exists v|done].
      * right. exists (t :: l1), task, l2. split; [done|].
        split; [|done]. constructor; [by exists v|done].
  - right. exists [], t, tasks. split; [done|]. split; [constructor|].
    right. by exists e.
Qed.

Lemma find_task_by_id_pass_all id tasks :
  Forall (id_is_not id) tasks -> find_task_by_id id tasks = Ok None.
Proof.
  intros H. unfold find_task_by_id.
  rewrite <- (app_nil_r tasks), find_task_from_pass by done. done.
Qed.

Lemma find_task_by_id_hit id l1 task l2 :
  Forall (id_is_not id) l1 -> id_is id task ->
  find_task_by_id id (l1 ++ task :: l2) = Ok (Some (List.length l1, task)).
Proof.
  intros Hl1 Hid. unfold find_task_by_id.
  rewrite find_task_from_pass by done. by apply find_task_from_hit.
Qed.

Lemma find_task_by_id_stop id l1 task l2 e :
  Forall (id_is_not id) l1 -> subscript task "id" = Raise e ->
  find_task_by_id id (l1 ++ task :: l2) = Raise e.
Proof.
  intros Hl1 He. unfold find_task_by_id.
  rewrite find_task_from_pass by done. by apply find_task_from_raise.
Qed.

Lemma split_at tasks (i : nat) task :
  tasks !! i = Some task ->
  tasks = take i tasks ++ task :: drop (S i) tasks
  /\ List.length (take i tasks) = i.
Proof.
  intros H. split; [by rewrite take_drop_middle|].
  apply lookup_lt_Some in H. rewrite length_take. lia.
Qed.

Lemma middle_take l1 task l2 :
  (l1 ++ task :: l2) !! List.length l1 = Some task
  /\ take (List.length l1) (l1 ++ task :: l2) = l1.
Proof. split; [by rewrite list_lookup_middle | by rewrite take_app_length]. Qed.

End Search.

(** X1: on any list, [find_task_by_id] returns the member at a position
    exactly when that member's id equals the id looked for and every
    member before it has an id that does not: it returns the first
    match, and what follows the match is not looked at. *)
Theorem find_task_by_id_first_match
  (id : Z) (tasks : list elem) (i : nat) (task : elem) :
  find_task_by_id id tasks = Ok (Some (i, task))
  <-> tasks !! i = Some task /\ id_is id task
      /\ Forall (id_is_not id) (take i tasks).
Proof.
  split.
  - intros Hfind.
    destruct (search_cases id tasks)
      as [Hall|(l1 & t & l2 & -> & Hl1 & [Hhit|[e He]])].
    + by rewrite find_task_by_id_pass_all in Hfind.
    + rewrite find_task_by_id_hit in Hfind by done.
      injection Hfind as <- <-.
      destruct (middle_take l1 t l2) as [-> ->]. done.
    + by rewrite (find_task_by_id_stop _ _ _ _ e) in Hfind.
  - intros (Hi & Hid & Hbefore).
    destruct (split_at _ _ _ Hi) as [Heq Hlen].
    rewrite Heq, find_task_by_id_hit by done. by rewrite Hlen.
Qed.

(** X2: on any list, [find_task_by_id] returns [None] exactly when
    every member has an id and none of them equals the id looked
    for. *)
Theorem find_task_by_id_none (id : Z) (tasks : list elem) :
  find_task_by_id id tasks = Ok None <-> Forall (id_is_not id) tasks.
Proof.
  split; [|apply find_task_by_id_pass_all].
  intros Hfind.
  destruct (search_cases id tasks)
    as [Hall|(l1 & t & l2 & -> & Hl1 & [Hhit|[e He]])]; [done|..].
  - by rewrite find_task_by_id_hit in Hfind.
  - by rewrite (find_task_by_id_stop _ _ _ _ e) in Hfind.
Qed.

(** X3: [find_task_by_id] raises exactly when, before any match, it
    meets a member whose [id] cannot be read; the exception is the one
    of that read, [KeyError] for a dictionary without [id] and
    [TypeError] for a member that is not a dictionary. *)
Theorem find_task_by_id_raises (id : Z) (tasks : list elem) (e : exn) :
  find_task_by_id id tasks = Raise e
  <-> exists (i : nat) task,
        tasks !! i = Some task /\ subscript task "id" = Raise e
        /\ Forall (id_is_not id) (take i tasks)
        /\ (e = KeyError /\ (exists d, task = EDict d)
            \/ e = TypeError /\ (exists v, task = EScalar v)).
Proof.
  split.
  - intros Hfind.
    destruct (search_cases id tasks)
      as [Hall|(l1 & t & l2 & -> & Hl1 & [Hhit|[e' He]])].
    + by rewrite find_task_by_id_pass_all in Hfind.
    + by rewrite find_task_by_id_hit in Hfind.
    + rewrite (find_task_by_id_stop _ _ _ _ e') in Hfind by done.
      injection Hfind as <-.
      exists (List.length l1), t. destruct (middle_take l1 t l2) as [-> ->].
      split; [done|]. split; [done|]. split; [done|].
      destruct t as [d|v]; simpl in He.
      * left. destruct (dict_get "id" d); [done|]. injection He as <-. eauto.
      * right. injection He as <-. eauto.
  - intros (i & task & Hi & He & Hbefore & _).
    destruct (split_at _ _ _ Hi) as [Heq Hlen].
    rewrite Heq. by apply find_task_by_id_stop.
Qed.

(** *** Completing and deleting on arbitrary lists *)

Section Mutation.
Implicit Types (tasks : list elem) (task : elem) (id : Z) (e : exn).

Lemma subscript_ok_dict task k v :
  subscript task k = Ok v -> exists d, task = EDict d /\ dict_get k d = Some v.
Proof.
  destruct task as [d|w]; simpl; [|done].
  destruct (dict_get k d) as [v'|] eqn:E; [|done]. intros [= <-]. eauto.
Qed.

(** A member the search walked past does not compare equal to the
    match. *)
Lemma elem_eq_passed id t task :
  id_is_not id t -> id_is id task -> elem_eq t task = false.
Proof.
  intros (v' & (d' & -> & Hd')%subscript_ok_dict & Hne)
         (v & (d & -> & Hd)%subscript_ok_dict & Heq).
  simpl. apply not_true_is_false. intros Hdict.
  destruct (dict_eq_get _ _ _ _ Hdict Hd') as (v'' & Hv'' & Hs).
  rewrite Hd in Hv''. injection Hv'' as <-.
  by rewrite (scalar_eq_eq_int _ _ _ Hs Heq) in Hne.
Qed.

Lemma list_remove_hit id l1 task l2 :
  Forall (id_is_not id) l1 -> id_is id task ->
  list_remove (List.length l1) task (l1 ++ task :: l2) = Ok (l1 ++ l2).
Proof.
  intros Hl1 Hid. unfold list_remove.
  change (List.length l1) with (0 + List.length l1)%nat. generalize 0%nat.
  induction Hl1 as [|t l1 Ht _ IH]; intros j.
  - cbn. by rewrite Nat.add_0_r, Nat.eqb_refl.
  - cbn [app list_remove_from List.length].
    rewrite (elem_eq_passed _ _ _ Ht Hid).
    replace (j =? j + S (List.length l1))%nat with false
      by (symmetry; apply Nat.eqb_neq; lia).
    replace (j + S (List.length l1))%nat with (S j + List.length l1)%nat by lia.
    cbn. by rewrite IH.
Qed.

Lemma delete_task_hit id l1 task l2 :
  Forall (id_is_not id) l1 -> id_is id task ->
  delete_task id (l1 ++ task :: l2) = Ok (true, l1 ++ l2).
Proof.
  intros Hl1 Hid. unfold delete_task.
  rewrite find_task_by_id_hit by done. cbn.
  by rewrite (list_remove_hit id).
Qed.

Lemma complete_task_hit id l1 d l2 :
  Forall (id_is_not id) l1 -> id_is id (EDict d) ->
  complete_task id (l1 ++ EDict d :: l2)
  = Ok (true, l1 ++ EDict (dict_set "completed" (VBool true) d) :: l2).
Proof.
  intros Hl1 Hid. unfold complete_task.
  rewrite find_task_by_id_hit by done. cbn. do 2 f_equal.
  rewrite <- (Nat.add_0_r (List.length l1)). by rewrite insert_app_r.
Qed.

Lemma id_is_dict id task : id_is id task -> exists d, task = EDict d.
Proof. intros (v & (d & -> & _)%subscript_ok_dict & _). eauto. Qed.

End Mutation.

(** X4: on any list, [delete_task] answers [True] exactly when the
    search has a first match, and the list it leaves is the old one
    without that one position; members after the match, malformed or
    not, are kept. *)
Theorem delete_task_first_match (id : Z) (tasks tasks' : list elem) :
  delete_task id tasks = Ok (true, tasks')
  <-> exists (i : nat) task,
        tasks !! i = Some task /\ id_is id task
        /\ Forall (id_is_not id) (take i tasks)
        /\ tasks' = delete i tasks.
Proof.
  split.
  - intros Hdel.
    destruct (search_cases id tasks)
      as [Hall|(l1 & t & l2 & -> & Hl1 & [Hhit|[e He]])].
    + unfold delete_task in Hdel.
      by rewrite find_task_by_id_pass_all in Hdel.
    + rewrite delete_task_hit in Hdel by done. injection Hdel as <-.
      exists (List.length l1), t. destruct (middle_take l1 t l2) as [-> ->].
      by rewrite delete_middle.
    + unfold delete_task in Hdel.
      by rewrite (find_task_by_id_stop _ _ _ _ e) in Hdel.
  - intros (i & task & Hi & Hid & Hbefore & ->).
    destruct (split_at _ _ _ Hi) as [Heq Hlen]. symmetry in Heq.
    revert Heq Hlen Hbefore. clear Hi.
    generalize (take i tasks) as l1. generalize (drop (S i) tasks) as l2.
    intros l2 l1 <- <- Hbefore.
    by rewrite delete_task_hit, delete_middle.
Qed.

(** X5: the only exceptions of [complete_task] and [delete_task] are
    those of the search.  [tasks.remove(task)] never raises
    [ValueError] and the assignment to [completed] never fails, and
    when the search finds nothing both answer [False] with the list as
    it was. *)
Theorem mutation_outcomes (id : Z) (tasks : list elem) :
  (forall e, complete_task id tasks = Raise e
             <-> find_task_by_id id tasks = Raise e)
  /\ (forall e, delete_task id tasks = Raise e
                <-> find_task_by_id id tasks = Raise e)
  /\ (forall tasks', complete_task id tasks = Ok (false, tasks')
                     <-> find_task_by_id id tasks = Ok None /\ tasks' = tasks)
  /\ (forall tasks', delete_task id tasks = Ok (false, tasks')
                     <-> find_task_by_id id tasks = Ok None /\ tasks' = tasks).
Proof.
  destruct (search_cases id tasks)
    as [Hall|(l1 & t & l2 & -> & Hl1 & [Hhit|[e' He]])].
  - unfold complete_task, delete_task.
    rewrite find_task_by_id_pass_all by done. cbn.
    split_and!; intros; split; intros; destruct_and?; simplify_eq; done.
  - destruct (id_is_dict _ _ Hhit) as [d ->].
    rewrite complete_task_hit, delete_task_hit, find_task_by_id_hit by done.
    split_and!; intros; split; intros; destruct_and?; simplify_eq.
  - unfold complete_task, delete_task.
    rewrite (find_task_by_id_stop _ _ _ _ e') by done. cbn.
    split_and!; intros; split; intros; destruct_and?; simplify_eq; done.
Qed.

(** *** The next id on arbitrary lists *)

Section NextId.
Implicit Types (tasks : list elem) (task : elem) (e : exn) (v cur : scalar).

Lemma numeric_ids_cons task tasks ns :
  numeric_ids (task :: tasks) = Some ns <->
  exists n ns', numeric_id task = Some n /\ numeric_ids tasks = Some ns'
                /\ ns = n :: ns'.
Proof.
  simpl. destruct (numeric_id task) as [n|]; simpl.
  - destruct (numeric_ids tasks) as [ns'|]; simpl.
    + split; [intros [= <-]; eauto | by intros (? & ? & [= <-] & [= <-] & ->)].
    + split; [done | by intros (? & ? & _ & ? & _)].
  - split; [done | by intros (? & ? & ? & _)].
Qed.

Lemma numeric_id_subscript task n :
  numeric_id task = Some n ->
  exists v, subscript task "id" = Ok v /\ as_int v = Some n.
Proof.
  unfold numeric_id. destruct (subscript task "id") as [v|]; [eauto|done].
Qed.

Lemma gt_numeric a b x y :
  as_int a = Some x -> as_int b = Some y -> gt a b = Ok (y <? x).
Proof. unfold gt. by intros -> ->. Qed.

(** A comparison that works is between two numbers or between two
    strings. *)
Lemma gt_ok_numeric a b r :
  gt a b = Ok r -> is_Some (as_int a) <-> is_Some (as_int b).
Proof.
  unfold gt. destruct a, b; cbn; intros H; try done;
    split; intros [? ?]; try done; eauto.
Qed.

Lemma gt_raises a b e : gt a b = Raise e -> e = TypeError.
Proof.
  unfold gt. destruct (as_int a), (as_int b), a, b; try done; by intros [= <-].
Qed.

Lemma add1_raises v e : add1 v = Raise e -> e = TypeError.
Proof. unfold add1. destruct (as_int v); [done|]. by intros [= <-]. Qed.

(** Over members with numeric ids the running maximum stays a number,
    the largest seen. *)
Lemma max_id_from_numeric cur c l1 ns :
  as_int cur = Some c -> numeric_ids l1 = Some ns ->
  exists m, as_int m = Some (foldl Z.max c ns)
            /\ forall rest, max_id_from cur (l1 ++ rest) = max_id_from m rest.
Proof.
  revert cur c ns. induction l1 as [|t l1 IH]; intros cur c ns Hc.
  - intros [= <-]. by exists cur.
  - intros (n & ns' & (v & Hv & Hn)%numeric_id_subscript & Hns & ->)%numeric_ids_cons.
    destruct (IH (if c <? n then v else cur) (Z.max c n) ns') as (m & Hm & Hrest);
      [|done|].
    { unfold Z.max. rewrite Z.ltb_compare. by destruct (c ?= n). }
    exists m. split; [done|]. intros rest.
    cbn [app max_id_from]. rewrite Hv. cbn.
    rewrite (gt_numeric _ _ _ _ Hn Hc). cbn. apply Hrest.
Qed.

(** A running maximum that ends as a number started as one and met
    only numbers. *)
Lemma max_id_from_ok cur tasks m :
  max_id_from cur tasks = Ok m -> is_Some (as_int m) ->
  is_Some (as_int cur) /\ is_Some (numeric_ids tasks).
Proof.
  revert cur. induction tasks as [|t tasks IH]; intros cur.
  - intros [= <-] ?. by split.
  - cbn [max_id_from]. destruct (subscript t "id") as [v|] eqn:Hv; [|done].
    cbn. destruct (gt v cur) as [b|] eqn:Hgt; [|done]. cbn.
    intros Hmax Hm. destruct (IH _ Hmax Hm) as [Hnext [ns Hns]].
    apply gt_ok_numeric in Hgt.
    assert (is_Some (as_int v) /\ is_Some (as_int cur)) as [[n Hn] Hcur].
    { destruct b; split; tauto. }
    split; [done|]. exists (n :: ns). apply numeric_ids_cons.
    exists n, ns. unfold numeric_id. by rewrite Hv.
Qed.

Lemma max_id_from_raises cur tasks e :
  max_id_from cur tasks = Raise e -> e = KeyError \/ e = TypeError.
Proof.
  revert cur. induction tasks as [|t tasks IH]; intros cur; [done|].
  cbn [max_id_from]. destruct (subscript t "id") as [v|e'] eqn:Hv.
  - cbn. destruct (gt v cur) as [b|e'] eqn:Hgt; cbn.
    + apply IH.
    + intros [= <-]. right. by eapply gt_raises.
  - cbn. intros [= <-]. by eapply subscript_raises.
Qed.

Lemma get_next_id_numeric task tasks c ns :
  numeric_ids (task :: tasks) = Some (c :: ns) ->
  get_next_id (task :: tasks) = Ok (foldl Z.max c ns + 1).
Proof.
  intros (n & ns' & (v & Hv & Hn)%numeric_id_subscript & Hns & [= <- <-])%numeric_ids_cons.
  destruct (max_id_from_numeric v c tasks ns Hn Hns) as (m & Hm & Hrest).
  cbn [get_next_id]. rewrite Hv. cbn.
  rewrite <- (app_nil_r tasks), Hrest. cbn. unfold add1. by rewrite Hm.
Qed.

Lemma get_next_id_raises_kind tasks e :
  get_next_id tasks = Raise e -> e = KeyError \/ e = TypeError.
Proof.
  destruct tasks as [|t tasks]; [done|]. cbn [get_next_id].
  destruct (subscript t "id") as [v|e'] eqn:Hv; cbn.
  - destruct (max_id_from v tasks) as [m|e'] eqn:Hmax; cbn.
    + intros ?%add1_raises. by right.
    + intros [= <-]. by eapply max_id_from_raises.
  - intros [= <-]. by eapply subscript_raises.
Qed.

End NextId.

(** X6: on any list, [get_next_id] returns a number exactly when the
    list is empty, and the number is 1, or every member has a numeric
    id, and the number is the largest of them plus 1.  An id that is a
    string, [None] or missing never yields a next id. *)
Theorem get_next_id_ok_iff (tasks : list elem) (n : Z) :
  get_next_id tasks = Ok n
  <-> (tasks = [] /\ n = 1)
      \/ (tasks <> []
          /\ exists ns m, numeric_ids tasks = Some ns /\ m ∈ ns
                          /\ (forall i, i ∈ ns -> i <= m) /\ n = m + 1).
Proof.
  destruct tasks as [|t tasks].
  - split; [intros [= <-]; by left | by intros [[_ ->]|[? _]]].
  - split.
    + intros Hnext. right. split; [done|].
      pose proof Hnext as Hok. cbn [get_next_id] in Hok.
      destruct (subscript t "id") as [v|] eqn:Hv; [|done]. cbn in Hok.
      destruct (max_id_from v tasks) as [m|] eqn:Hmax; [|done]. cbn in Hok.
      assert (is_Some (as_int m)) as Hm.
      { unfold add1 in Hok. by destruct (as_int m). }
      destruct (max_id_from_ok _ _ _ Hmax Hm) as [[c Hc] [ns Hns]].
      assert (numeric_ids (t :: tasks) = Some (c :: ns)) as Hall.
      { apply numeric_ids_cons. exists c, ns. unfold numeric_id.
        by rewrite Hv. }
      rewrite (get_next_id_numeric _ _ _ _ Hall) in Hnext.
      injection Hnext as <-.
      exists (c :: ns), (foldl Z.max c ns).
      split; [done|]. split; [apply foldl_max_elem_of|].
      split; [apply foldl_max_ge|done].
    + intros [[? _]|(_ & ns & m & Hns & Hin & Hub & ->)]; [done|].
      pose proof Hns as (c & ns' & _ & _ & ->)%numeric_ids_cons.
      rewrite (get_next_id_numeric _ _ _ _ Hns). do 2 f_equal.
      apply Z.le_antisymm.
      * apply Hub, foldl_max_elem_of.
      * by apply foldl_max_ge.
Qed.

(** X7: [get_next_id] raises exactly on a list that is not empty and
    has a member without a numeric id, and what it raises is [KeyError]
    or [TypeError]. *)
Theorem get_next_id_raises_iff (tasks : list elem) :
  ((exists e, get_next_id tasks = Raise e)
   <-> tasks <> [] /\ numeric_ids tasks = None)
  /\ (forall e, get_next_id tasks = Raise e -> e = KeyError \/ e = TypeError).
Proof.
  split; [|apply get_next_id_raises_kind]. split.
  - intros [e He]. destruct tasks as [|t tasks]; [done|]. split; [done|].
    destruct (numeric_ids (t :: tasks)) as [ns|] eqn:Hns; [|done].
    pose proof Hns as (c & ns' & _ & _ & ->)%numeric_ids_cons.
    by rewrite (get_next_id_numeric _ _ _ _ Hns) in He.
  - intros [Hne Hnone]. destruct (get_next_id tasks) as [n|e] eqn:Hnext; [|eauto].
    apply get_next_id_ok_iff in Hnext as [[-> _]|(_ & ns & _ & Hns & _)]; [done|].
    by rewrite Hns in Hnone.
Qed.

(** X8: after members with numeric ids, the first member whose [id]
    cannot be read makes [get_next_id] raise the exception of that
    read, and a first member whose id is a string makes it raise
    [TypeError], whatever follows. *)
Theorem get_next_id_first_bad
  (l1 l2 : list elem) (task : elem) (ns : list Z) :
  numeric_ids l1 = Some ns ->
  (forall e, subscript task "id" = Raise e ->
             get_next_id (l1 ++ task :: l2) = Raise e)
  /\ (forall s, l1 <> [] -> subscript task "id" = Ok (VStr s) ->
                get_next_id (l1 ++ task :: l2) = Raise TypeError).
Proof.
  intros Hns. destruct l1 as [|t l1].
  - split; [|done]. intros e He. cbn [app get_next_id]. by rewrite He.
  - pose proof Hns as (c & ns' & (v & Hv & Hc)%numeric_id_subscript & Hns' & ->)%numeric_ids_cons.
    destruct (max_id_from_numeric v c l1 ns' Hc Hns') as (m & Hm & Hrest).
    split.
    + intros e He. cbn [app get_next_id]. rewrite Hv. cbn.
      rewrite Hrest. cbn [max_id_from]. by rewrite He.
    + intros s _ Hs. cbn [app get_next_id]. rewrite Hv. cbn.
      rewrite Hrest. cbn [max_id_from]. rewrite Hs. cbn.
      unfold gt. destruct m; cbn in *; done.
Qed.

Lemma get_next_id_first_bad_witness :
  (forall e, subscript no_id "id" = Raise e ->
             get_next_id ([Sample.task1; Sample.task2] ++ no_id :: [string_id])
             = Raise e)
  /\ (forall s, [Sample.task1; Sample.task2] <> [] ->
                subscript string_id "id" = Ok (VStr s) ->
                get_next_id ([Sample.task1; Sample.task2] ++ string_id :: [no_id])
                = Raise TypeError).
Proof.
  split.
  - apply (get_next_id_first_bad [Sample.task1; Sample.task2] [string_id]
             no_id [1; 2]). reflexivity.
  - apply (get_next_id_first_bad [Sample.task1; Sample.task2] [no_id]
             string_id [1; 2]). reflexivity.
Defined.

(** *** Invariants of the ids *)

Section IdInvariants.
Implicit Types (tasks : list elem) (ids : list Z) (id : Z).

Lemma int_id_is id task : int_id task = Some id -> id_is id task.
Proof.
  intros H. exists (VInt id). split; [by apply int_id_subscript|].
  unfold eq_int. cbn. apply Z.eqb_refl.
Qed.

Lemma others_pass id l : others id l -> Forall (id_is_not id) l.
Proof.
  unfold others. intros H. eapply Forall_impl; [exact H|].
  intros t (m & Hm & Hne).
  exists (VInt m). split; [by apply int_id_subscript|].
  unfold eq_int. cbn. by apply Z.eqb_neq.
Qed.

Lemma task_ids_snoc tasks ids n text now :
  task_ids tasks = Some ids ->
  task_ids (tasks ++ [EDict (new_task n text now)]) = Some (ids ++ [n]).
Proof. intros H. apply task_ids_app. by exists ids, [n]. Qed.

(** The id after the one just assigned is the next number. *)
Lemma get_next_id_after_add tasks ids n text now :
  task_ids tasks = Some ids -> get_next_id tasks = Ok n ->
  get_next_id (tasks ++ [EDict (new_task n text now)]) = Ok (n + 1).
Proof.
  intros Hids Hn.
  destruct (get_next_id_total _ _ Hids) as (n0 & Hn0 & _ & Habove & _).
  assert (n0 = n) as -> by congruence.
  destruct (get_next_id_total _ _ (task_ids_snoc _ _ n text now Hids))
    as (n' & -> & _ & Habove' & Hmem). f_equal.
  assert (n < n') by (apply Habove'; apply elem_of_app; right; left).
  assert (n' - 1 ∈ ids ++ [n]) as [Hin|Heq%list_elem_of_singleton]%elem_of_app.
  { apply Hmem. by destruct ids. }
  - apply Habove in Hin. lia.
  - lia.
Qed.

Lemma add_all_from calls :
  forall tasks ids n,
    task_ids tasks = Some ids -> get_next_id tasks = Ok n ->
    exists tasks',
      add_all calls tasks = Ok tasks'
      /\ task_ids tasks' = Some (ids ++ seqZ n (Z.of_nat (List.length calls)))
      /\ text_of <$> tasks'
         = (text_of <$> tasks) ++ ((fun c => Some (VStr c.2)) <$> calls).
Proof.
  induction calls as [|[now text] calls IH]; intros tasks ids n Hids Hn.
  - exists tasks. cbn. by rewrite !app_nil_r.
  - destruct (IH (tasks ++ [EDict (new_task n text now)]) (ids ++ [n]) (n + 1))
      as (tasks' & Hall & Hids' & Htexts).
    { by apply task_ids_snoc. }
    { by eapply get_next_id_after_add. }
    exists tasks'. split; [|split].
    + cbn [add_all]. unfold add_task. rewrite Hn. cbn. apply Hall.
    + rewrite Hids'. f_equal. rewrite <- app_assoc. f_equal.
      cbn [List.length]. rewrite (seqZ_cons n) by lia. cbn. do 2 f_equal; lia.
    + rewrite Htexts, fmap_app. cbn. by rewrite <- app_assoc.
Qed.

End IdInvariants.

(** X9: [add_task] keeps the ids of a collection unique: the new id is
    not an id of the collection, it is positive when the ids are, and
    the collection after the call has the old ids followed by the new
    one.  Looking the new id up finds the task just added, at the last
    position. *)
Theorem add_task_keeps_ids_unique
  (now text : string) (tasks : list elem) (ids : list Z) :
  task_ids tasks = Some ids ->
  exists n task tasks',
    add_task now text tasks = Ok (task, tasks')
    /\ task_ids tasks' = Some (ids ++ [n])
    /\ (n ∉ ids)
    /\ (NoDup ids -> NoDup (ids ++ [n]))
    /\ ((forall i, i ∈ ids -> 0 < i) -> 0 < n)
    /\ find_task_by_id n tasks' = Ok (Some (List.length tasks, EDict task)).
Proof.
  intros Hids.
  destruct (get_next_id_total _ _ Hids) as (n & Hn & Hempty & Habove & Hmem).
  exists n, (new_task n text now), (tasks ++ [EDict (new_task n text now)]).
  assert (n ∉ ids) as Hfresh by (intros ?%Habove; lia).
  split; [unfold add_task; by rewrite Hn|].
  split; [by apply task_ids_snoc|]. split; [done|]. split; [|split].
  - intros Hnodup. apply NoDup_app. split; [done|]. split; [|apply NoDup_singleton].
    intros j Hj ->%list_elem_of_singleton. done.
  - intros Hpos. destruct ids as [|i ids]; [by rewrite Hempty|].
    assert (n - 1 ∈ i :: ids) as ?%Hpos by by apply Hmem. lia.
  - apply find_task_by_id_hit; [|by apply int_id_is].
    apply others_pass. by eapply task_ids_absent.
Qed.

Lemma add_task_keeps_ids_unique_witness :
  exists n task tasks',
    add_task Sample.now "Call home" [Sample.task1; Sample.task2]
    = Ok (task, tasks')
    /\ task_ids tasks' = Some ([1; 2] ++ [n])
    /\ (n ∉ [1; 2])
    /\ (NoDup [1; 2] -> NoDup ([1; 2] ++ [n]))
    /\ ((forall i, i ∈ [1; 2] -> 0 < i) -> 0 < n)
    /\ find_task_by_id n tasks'
       = Ok (Some (List.length [Sample.task1; Sample.task2], EDict task)).
Proof.
  apply (add_task_keeps_ids_unique Sample.now "Call home"
           [Sample.task1; Sample.task2] [1; 2]).
  reflexivity.
Defined.

(** X10: starting from the empty collection, any number of [add_task]
    calls succeeds and numbers the tasks 1, 2, 3, ... in the order of
    the calls, each task holding the text of its call. *)
Theorem add_all_numbers_from_one (calls : list (string * string)) :
  exists tasks,
    add_all calls [] = Ok tasks
    /\ task_ids tasks = Some (seqZ 1 (Z.of_nat (List.length calls)))
    /\ text_of <$> tasks = (fun c => Some (VStr c.2)) <$> calls.
Proof.
  destruct (add_all_from calls [] [] 1) as (tasks & ? & ? & ?); [done..|].
  by exists tasks.
Qed.

(** X11: in a collection with unique ids, [delete_task] of an id of the
    collection leaves the other ids, still unique and in their order,
    and the deleted id is gone: looking it up finds nothing, and a
    second [delete_task] or a [complete_task] of it answers [False]. *)
Theorem delete_task_keeps_ids_unique
  (id : Z) (tasks : list elem) (ids : list Z) :
  task_ids tasks = Some ids -> NoDup ids -> id ∈ ids ->
  exists tasks' ids1 ids2,
    delete_task id tasks = Ok (true, tasks')
    /\ ids = ids1 ++ id :: ids2
    /\ task_ids tasks' = Some (ids1 ++ ids2)
    /\ NoDup (ids1 ++ ids2)
    /\ (id ∉ ids1 ++ ids2)
    /\ find_task_by_id id tasks' = Ok None
    /\ delete_task id tasks' = Ok (false, tasks')
    /\ complete_task id tasks' = Ok (false, tasks').
Proof.
  intros Hids Hnodup Hin.
  destruct (task_ids_split _ _ _ Hids Hin)
    as (l1 & task & l2 & -> & Htask & Hl1).
  apply task_ids_app in Hids as (ids1 & ids2' & H1 & H2 & ->).
  apply task_ids_cons in H2 as (m & ids2 & Hm & H2 & ->).
  assert (m = id) as -> by congruence.
  assert (task_ids (l1 ++ l2) = Some (ids1 ++ ids2)) as Hrest.
  { apply task_ids_app. by exists ids1, ids2. }
  assert (id ∉ ids1 ++ ids2) as Hgone.
  { apply NoDup_app in Hnodup as (_ & Hdisj & [Hnotin _]%NoDup_cons).
    intros [Hin1|Hin2]%elem_of_app; [|done].
    apply (Hdisj _ Hin1). left. }
  assert (find_task_by_id id (l1 ++ l2) = Ok None) as Hfind.
  { apply find_task_by_id_absent. by eapply task_ids_absent. }
  exists (l1 ++ l2), ids1, ids2.
  split; [by apply delete_task_found|]. split; [done|]. split; [done|].
  split.
  { apply NoDup_app in Hnodup as (? & Hdisj & [_ ?]%NoDup_cons).
    apply NoDup_app. split; [done|]. split; [|done].
    intros j Hj1 Hj2. apply (Hdisj _ Hj1). by right. }
  split; [done|]. split; [done|].
  unfold delete_task, complete_task. by rewrite Hfind.
Qed.

Lemma delete_task_keeps_ids_unique_witness :
  exists tasks' ids1 ids2,
    delete_task 2 [Sample.task1; Sample.task2; Sample.task3] = Ok (true, tasks')
    /\ [1; 2; 3] = ids1 ++ 2 :: ids2
    /\ task_ids tasks' = Some (ids1 ++ ids2)
    /\ NoDup (ids1 ++ ids2)
    /\ (2 ∉ ids1 ++ ids2)
    /\ find_task_by_id 2 tasks' = Ok None
    /\ delete_task 2 tasks' = Ok (false, tasks')
    /\ complete_task 2 tasks' = Ok (false, tasks').
Proof.
  apply (delete_task_keeps_ids_unique 2
           [Sample.task1; Sample.task2; Sample.task3] [1; 2; 3]).
  - reflexivity.
  - apply (bool_decide_unpack _). vm_compute. reflexivity.
  - right. left.
Defined.

(** X12: completing a task and then deleting it leaves the same
    collection as deleting it at once. *)
Theorem complete_then_delete (id : Z) (tasks : list elem) (ids : list Z) :
  task_ids tasks = Some ids -> id ∈ ids ->
  exists tasks1 tasks2,
    complete_task id tasks = Ok (true, tasks1)
    /\ delete_task id tasks1 = Ok (true, tasks2)
    /\ delete_task id tasks = Ok (true, tasks2).
Proof.
  intros Hids Hin.
  destruct (task_ids_split _ _ _ Hids Hin)
    as (l1 & task & l2 & -> & Htask & Hl1).
  pose proof Htask as (d & -> & Hd)%int_id_dict.
  eexists _, (l1 ++ l2).
  split; [by apply complete_task_found|].
  split; [|by apply delete_task_found].
  apply delete_task_found; [done|].
  simpl. by rewrite dict_get_set_ne, Hd.
Qed.

Lemma complete_then_delete_witness :
  exists tasks1 tasks2,
    complete_task 1 [Sample.task1; Sample.task2] = Ok (true, tasks1)
    /\ delete_task 1 tasks1 = Ok (true, tasks2)
    /\ delete_task 1 [Sample.task1; Sample.task2] = Ok (true, tasks2).
Proof.
  apply (complete_then_delete 1 [Sample.task1; Sample.task2] [1; 2]);
    [reflexivity | left].
Defined.

(** *** Loading and saving *)

Section Storage.
Variable json_load : string -> loaded.

Lemma init_file_spec w :
  init_file w = (World (Some "[]") (log w ++ [EOpenW; EWrite "[]"]), Returns tt).
Proof.
  unfold init_file, run_steps, write, open_w. cbn. by rewrite <- app_assoc.
Qed.

Lemma save_tasks_spec tasks w :
  save_tasks tasks w
  = (World (Some (Json.dumps_indent2 tasks))
           (log w ++ [EOpenW; EWrite (Json.dumps_indent2 tasks)]),
     Returns tt).
Proof.
  unfold save_tasks, save_tasks_steps, run_steps, write, open_w.
  cbn. by rewrite <- app_assoc.
Qed.

(** X13: [load_tasks] returns in every world, and afterwards the file
    exists.  When the file decodes to a list, that list is returned and
    nothing changes; in every other case the empty list is returned,
    the file holds [[]], and a diagnostic is printed only when there
    was a file. *)
Theorem load_tasks_always_returns (w : world) :
  exists tasks w',
    load_tasks json_load w = (w', Returns tasks)
    /\ is_Some (file w')
    /\ ((exists text, file w = Some text /\ json_load text = LList tasks)
        /\ w' = w
        \/ tasks = [] /\ file w' = Some "[]"
           /\ exists diag,
                log w' = log w ++ diag ++ [EOpenW; EWrite "[]"]
                /\ (file w = None -> diag = [])
                /\ (is_Some (file w) ->
                    exists e, diag = [EStderr (corrupted_message e)])).
Proof.
  unfold load_tasks. destruct (file w) as [text|] eqn:Hfile.
  - destruct (json_load text) as [tasks| |msg] eqn:Hload.
    + exists tasks, w. split; [done|]. rewrite Hfile.
      split; [done|]. left. eauto.
    + eexists [], _. rewrite reinitialize_spec. split; [done|].
      split; [done|]. right. split; [done|]. split; [done|].
      eexists [_]. split; [done|]. split; [done|]. eauto.
    + eexists [], _. rewrite reinitialize_spec. split; [done|].
      split; [done|]. right. split; [done|]. split; [done|].
      eexists [_]. split; [done|]. split; [done|]. eauto.
  - eexists [], _. unfold io_bind. rewrite init_file_spec. cbn.
    split; [done|]. split; [done|]. right. split; [done|]. split; [done|].
    exists []. split; [done|]. split; [done|]. by intros [? ?].
Qed.

(** X14: when the decoder reads [[]] as the empty list, loading is
    stable: a second [load_tasks] in the world the first one left
    returns the same list and changes nothing, so a file that was reset
    is not reported again. *)
Theorem load_tasks_twice (w w' : world) (tasks : list elem) :
  json_load "[]" = LList [] ->
  load_tasks json_load w = (w', Returns tasks) ->
  load_tasks json_load w' = (w', Returns tasks).
Proof.
  intros Hempty Hload.
  destruct (load_tasks_always_returns w)
    as (tasks0 & w0 & Hload0 & _ & [[(text & Hfile & Hdec) ->]|(-> & Hfile & _)]);
    rewrite Hload0 in Hload; injection Hload as <- <-.
  - done.
  - unfold load_tasks. by rewrite Hfile, Hempty.
Qed.

(** X15: when the decoder reads the dump of a collection back as that
    collection, [load_tasks] after [save_tasks] returns the collection
    saved, whatever the file held before, and changes nothing. *)
Theorem save_then_load (tasks : list elem) (w : world) :
  json_load (Json.dumps_indent2 tasks) = LList tasks ->
  load_tasks json_load (save_tasks tasks w).1
  = ((save_tasks tasks w).1, Returns tasks).
Proof.
  intros Hdec. rewrite save_tasks_spec. unfold load_tasks. cbn.
  by rewrite Hdec.
Qed.

End Storage.

Lemma load_tasks_twice_witness :
  load_tasks Sample.json_load
    (World (Some "[]")
       [EStderr (corrupted_message "Expecting value: line 1 column 1 (char 0)");
        EOpenW; EWrite "[]"])
  = (World (Some "[]")
       [EStderr (corrupted_message "Expecting value: line 1 column 1 (char 0)");
        EOpenW; EWrite "[]"],
     Returns []).
Proof.
  apply (load_tasks_twice Sample.json_load (Sample.world_with "{oops"));
    reflexivity.
Defined.

Lemma save_then_load_witness :
  load_tasks Sample.json_load
    (save_tasks [Sample.task1; Sample.task2] (Sample.world_with "{oops")).1
  = ((save_tasks [Sample.task1; Sample.task2] (Sample.world_with "{oops")).1,
     Returns [Sample.task1; Sample.task2]).
Proof.
  apply (save_then_load Sample.json_load [Sample.task1; Sample.task2]
           (Sample.world_with "{oops")).
  reflexivity.
Defined.

(** *** The commands *)

Section Handlers.
Variable json_load : string -> loaded.
Variable fromisoformat : string -> option datetime.




(** X19: when the list that was loaded holds a member the repository
    cannot read, [add], [complete] and [delete] end with the exception
    of that read: the file is as [load_tasks] left it and nothing is
    printed. *)
Theorem handlers_raise_before_save
  (id : Z) (now text : string) (tasks : list elem) (w w1 : world) (e : exn) :
  load_tasks json_load w = (w1, Returns tasks) ->
  (get_next_id tasks = Raise e ->
   handle_add json_load now text w = (w1, Raises e))
  /\ (find_task_by_id id tasks = Raise e ->
      handle_complete json_load id w = (w1, Raises e)
      /\ handle_delete json_load id w = (w1, Raises e)).
Proof.
  intros Hload. split.
  - intros Hn. unfold handle_add, io_bind, lift, add_task.
    by rewrite Hload, Hn.
  - intros Hfind. unfold handle_complete, handle_delete, io_bind, lift.
    unfold complete_task, delete_task. by rewrite Hload, Hfind.
Qed.

(** Printing the tasks only ever adds lines to the standard output. *)
Lemma print_tasks_only_prints tasks w :
  exists lines o,
    print_tasks fromisoformat tasks w
    = (World (file w) (log w ++ map EStdout lines), o)
    /\ (o = Returns tt \/ exists e, o = Raises e).
Proof.
  revert w. induction tasks as [|task tasks IH]; intros w.
  - exists [], (Returns tt). cbn. rewrite app_nil_r, world_eta. eauto.
  - cbn [print_tasks]. unfold io_bind, lift.
    destruct (format_task fromisoformat task) as [line|e].
    + cbn. destruct (IH (World (file w) (log w ++ [EStdout line])))
        as (lines & o & Hrest & Ho).
      unfold io_bind in Hrest. rewrite Hrest. cbn.
      exists (line :: lines). destruct Ho as [->|[e ->]].
      * exists (Returns tt). cbn. rewrite <- app_assoc. eauto.
      * exists (Raises e). cbn. rewrite <- app_assoc. eauto.
    + exists [], (Raises e). cbn. rewrite app_nil_r, world_eta. eauto.
Qed.

(** X20: the [list] command never writes to a file it could load: for
    any list, well-formed or not, it adds only lines of the standard
    output to what the process did, leaves the file as [load_tasks]
    left it, and ends by returning or with an exception, never with
    [sys.exit]. *)
Theorem handle_list_only_prints (tasks : list elem) (w w1 : world) :
  load_tasks json_load w = (w1, Returns tasks) ->
  exists lines o,
    handle_list json_load fromisoformat w
    = (World (file w1) (log w1 ++ map EStdout lines), o)
    /\ (o = Returns tt \/ exists e, o = Raises e).
Proof.
  intros Hload. unfold handle_list, io_bind. rewrite Hload.
  destruct tasks as [|task tasks].
  - exists ["No tasks found."], (Returns tt). eauto.
  - apply print_tasks_only_prints.
Qed.

(** X21: when a member of the list cannot be formatted, [list_tasks]
    has printed the lines of the tasks before it, prints nothing for
    the tasks after it, and ends with the exception. *)
Theorem list_tasks_stops_at_bad_task
  (l1 l2 : list elem) (task : elem) (e : exn) (w : world) :
  Forall (listable fromisoformat) l1 ->
  format_task fromisoformat task = Raise e ->
  exists lines,
    list_tasks fromisoformat (l1 ++ task :: l2) w
    = (World (file w) (log w ++ map EStdout lines), Raises e)
    /\ Forall2 (listed fromisoformat) l1 lines.
Proof.
  intros Hl1 Hbad.
  assert (exists lines,
             print_tasks fromisoformat (l1 ++ task :: l2) w
             = (World (file w) (log w ++ map EStdout lines), Raises e)
             /\ Forall2 (listed fromisoformat) l1 lines) as Hprint.
  { revert w. induction Hl1 as [|t l1 Ht _ IH]; intros w.
    - exists []. split; [|constructor].
      cbn [app print_tasks]. unfold io_bind, lift. rewrite Hbad.
      cbn. by rewrite app_nil_r, world_eta.
    - destruct (format_task_listable fromisoformat _ Ht)
        as (line & Hline & Hlisted).
      destruct (IH (World (file w) (log w ++ [EStdout line])))
        as (lines & Hlines & Hall).
      exists (line :: lines). split; [|by constructor].
      cbn [app print_tasks]. unfold io_bind, lift. rewrite Hline. cbn.
      unfold io_bind in Hlines. rewrite Hlines. cbn.
      by rewrite <- app_assoc. }
  destruct Hprint as (lines & Hprint & Hall). exists lines.
  split; [|done]. rewrite <- Hprint. by destruct l1.
Qed.

End Handlers.




Lemma handlers_raise_before_save_witness :
  let w := Sample.world_with (Json.dumps_indent2 [Sample.task1; no_id]) in
  (get_next_id [Sample.task1; no_id] = Raise KeyError ->
   handle_add Behaviour.json_load Sample.now "Call home" w
   = (w, Raises KeyError))
  /\ (find_task_by_id 7 [Sample.task1; no_id] = Raise KeyError ->
      handle_complete Behaviour.json_load 7 w = (w, Raises KeyError)
      /\ handle_delete Behaviour.json_load 7 w = (w, Raises KeyError)).
Proof.
  intros w.
  apply (handlers_raise_before_save Behaviour.json_load 7 Sample.now
           "Call home" [Sample.task1; no_id] w w KeyError).
  reflexivity.
Defined.

Lemma handle_list_only_prints_witness :
  let w := Sample.world_with (Json.dumps_indent2 [Sample.task1; no_id]) in
  exists lines o,
    handle_list Behaviour.json_load Sample.fromisoformat w
    = (World (file w) (log w ++ map EStdout lines), o)
    /\ (o = Returns tt \/ exists e, o = Raises e).
Proof.
  intros w.
  apply (handle_list_only_prints Behaviour.json_load Sample.fromisoformat
           [Sample.task1; no_id] w w).
  reflexivity.
Defined.

Lemma list_tasks_stops_at_bad_task_witness :
  exists lines,
    list_tasks Sample.fromisoformat
      ([Sample.task1; Sample.task3; Sample.task4]
         ++ null_created :: [Sample.task2])
      Sample.empty_world
    = (World (file Sample.empty_world)
             (log Sample.empty_world ++ map EStdout lines),
       Raises TypeError)
    /\ Forall2 (listed Sample.fromisoformat)
         [Sample.task1; Sample.task3; Sample.task4] lines.
Proof.
  apply (list_tasks_stops_at_bad_task Sample.fromisoformat
           [Sample.task1; Sample.task3; Sample.task4] [Sample.task2]
           null_created TypeError Sample.empty_world).
  - apply sample_tasks_listable.
  - reflexivity.
Defined.

(** *** Formatting and exit codes *)

Section Outcomes.
Variable json_load : string -> loaded.
Variable fromisoformat : string -> option datetime.

(** X22: what [format_task] raises.  It raises [KeyError] exactly when
    [completed], [id] or [text] is missing, and [TypeError] exactly
    when those three are there and [created_at] is there but is not a
    string; a member that is not a dictionary gives [TypeError].  It
    never raises [ValueError]: a [created_at] that does not parse is
    shown as [Unknown]. *)
Theorem format_task_outcomes (d : dict) :
  (format_task fromisoformat (EDict d) = Raise KeyError
   <-> dict_get "completed" d = None \/ dict_get "id" d = None
       \/ dict_get "text" d = None)
  /\ (format_task fromisoformat (EDict d) = Raise TypeError
      <-> is_Some (dict_get "completed" d) /\ is_Some (dict_get "id" d)
          /\ is_Some (dict_get "text" d)
          /\ exists v, dict_get "created_at" d = Some v
                       /\ forall s, v <> VStr s)
  /\ format_task fromisoformat (EDict d) <> Raise ValueError
  /\ (forall v, format_task fromisoformat (EScalar v) = Raise TypeError).
Proof.
  unfold format_task, format_timestamp. cbn [subscript].
  destruct (dict_get "completed" d) as [c|]; cbn;
    [|split_and!; try done; split; intros H; try done; [by left|];
      by destruct H as ([? ?] & _)].
  destruct (dict_get "id" d) as [i|]; cbn;
    [|split_and!; try done; split; intros H; try done; [right; by left|];
      by destruct H as (_ & [? ?] & _)].
  destruct (dict_get "text" d) as [t|]; cbn;
    [|split_and!; try done; split; intros H; try done; [right; by right|];
      by destruct H as (_ & _ & [? ?] & _)].
  destruct (dict_get "created_at" d) as [v|]; cbn.
  - destruct v as [|b|n|s]; cbn;
      try (split_and!; try done;
           [split; [done | by intros [?|[?|?]]]
           |split; [intros _; repeat split; eauto; eexists; split; done | done]]).
    destruct (fromisoformat s); cbn;
      (split_and!; try done;
       [split; [done | by intros [?|[?|?]]]
       |split; [done | intros (_ & _ & _ & v & [= <-] & Hv); by destruct (Hv s)]]).
  - split_and!; try done.
    + split; [done | by intros [?|[?|?]]].
    + split; [done | by intros (_ & _ & _ & v & ? & _)].
Qed.

(** X23: the exit codes of the commands.  [complete] and [delete] end
    with [sys.exit] exactly when the search returns nothing, and the
    code is then 1; [add] and [list] never end with [sys.exit]. *)
Theorem handler_exit_codes
  (id : Z) (now text : string) (tasks : list elem) (w w1 : world) :
  load_tasks json_load w = (w1, Returns tasks) ->
  (forall c, (handle_complete json_load id w).2 = Exits c
             <-> c = 1 /\ find_task_by_id id tasks = Ok None)
  /\ (forall c, (handle_delete json_load id w).2 = Exits c
                <-> c = 1 /\ find_task_by_id id tasks = Ok None)
  /\ (forall c, (handle_add json_load now text w).2 <> Exits c)
  /\ (forall c, (handle_list json_load fromisoformat w).2 <> Exits c).
Proof.
  intros Hload. split_and!.
  - intros c. unfold handle_complete, io_bind, lift. rewrite Hload.
    destruct (search_cases id tasks)
      as [Hall|(l1 & t & l2 & -> & Hl1 & [Hhit|[e' He]])].
    + unfold complete_task. rewrite find_task_by_id_pass_all by done. cbn.
      split; [by intros [= <-] | by intros [-> _]].
    + destruct (id_is_dict _ _ Hhit) as [d ->].
      rewrite complete_task_hit, find_task_by_id_hit by done. cbn.
      split; [done | by intros [_ ?]].
    + unfold complete_task. rewrite (find_task_by_id_stop _ _ _ _ e') by done.
      cbn. split; [done | by intros [_ ?]].
  - intros c. unfold handle_delete, io_bind, lift. rewrite Hload.
    destruct (search_cases id tasks)
      as [Hall|(l1 & t & l2 & -> & Hl1 & [Hhit|[e' He]])].
    + unfold delete_task. rewrite find_task_by_id_pass_all by done. cbn.
      split; [by intros [= <-] | by intros [-> _]].
    + rewrite delete_task_hit, find_task_by_id_hit by done. cbn.
      split; [done | by intros [_ ?]].
    + unfold delete_task. rewrite (find_task_by_id_stop _ _ _ _ e') by done.
      cbn. split; [done | by intros [_ ?]].
  - intros c. unfold handle_add, io_bind, lift, add_task. rewrite Hload.
    by destruct (get_next_id tasks).
  - intros c.
    destruct (handle_list_only_prints json_load fromisoformat _ _ _ Hload)
      as (lines & o & -> & [->|[e ->]]); done.
Qed.

End Outcomes.

Lemma handler_exit_codes_witness :
  let w := Sample.world_with (Json.dumps_indent2 [Sample.task1; Sample.task2]) in
  (forall c, (handle_complete Sample.json_load 7 w).2 = Exits c
             <-> c = 1
                 /\ find_task_by_id 7 [Sample.task1; Sample.task2] = Ok None)
  /\ (forall c, (handle_delete Sample.json_load 7 w).2 = Exits c
                <-> c = 1
                    /\ find_task_by_id 7 [Sample.task1; Sample.task2] = Ok None)
  /\ (forall c, (handle_add Sample.json_load Sample.now "Call home" w).2
                <> Exits c)
  /\ (forall c, (handle_list Sample.json_load Sample.fromisoformat w).2
                <> Exits c).
Proof.
  intros w.
  apply (handler_exit_codes Sample.json_load Sample.fromisoformat 7
           Sample.now "Call home" [Sample.task1; Sample.task2] w w).
  reflexivity.
Defined.

(** *** Completing, listing and the order of commands *)

Section Marking.
Variable fromisoformat : string -> option datetime.
Implicit Types (tasks : list elem) (ids : list Z) (id : Z) (d : dict).

Lemma format_task_fields d id text completed created timestamp :
  task_fields d id text completed created ->
  format_timestamp fromisoformat (EDict d) = Ok timestamp ->
  format_task fromisoformat (EDict d)
  = Ok (listing_line id completed text timestamp).
Proof.
  intros (Hid & Htext & Hc & _) Hts. unfold format_task. cbn [subscript].
  rewrite Hid, Htext, Hc. cbn. by rewrite Hts.
Qed.

Lemma task_fields_completed d id text completed created :
  task_fields d id text completed created ->
  task_fields (dict_set "completed" (VBool true) d) id text true created.
Proof.
  intros (Hid & Htext & Hc & Hcreated). unfold task_fields.
  by rewrite dict_get_set_eq, !dict_get_set_ne.
Qed.

Lemma format_timestamp_completed d :
  format_timestamp fromisoformat (EDict (dict_set "completed" (VBool true) d))
  = format_timestamp fromisoformat (EDict d).
Proof. unfold format_timestamp. cbn [subscript]. by rewrite dict_get_set_ne. Qed.

Lemma int_id_completed d :
  int_id (EDict (dict_set "completed" (VBool true) d)) = int_id (EDict d).
Proof. simpl. by rewrite dict_get_set_ne. Qed.

Lemma mark_completed_found id l1 d l2 :
  others id l1 -> int_id (EDict d) = Some id ->
  mark_completed id (l1 ++ EDict d :: l2)
  = l1 ++ EDict (dict_set "completed" (VBool true) d) :: l2.
Proof.
  intros Hl1 Hd. induction Hl1 as [|t l1 (m & Hm & Hne) _ IH].
  - cbn [app mark_completed]. by rewrite bool_decide_eq_true_2.
  - cbn [app mark_completed]. destruct t as [d'|v]; [|by rewrite IH].
    rewrite bool_decide_eq_false_2 by congruence. by rewrite IH.
Qed.

Lemma complete_task_mark id tasks ids :
  task_ids tasks = Some ids -> id ∈ ids ->
  complete_task id tasks = Ok (true, mark_completed id tasks).
Proof.
  intros Hids Hin.
  destruct (task_ids_split _ _ _ Hids Hin)
    as (l1 & task & l2 & -> & Htask & Hl1).
  pose proof Htask as (d & -> & Hd)%int_id_dict.
  by rewrite complete_task_found, mark_completed_found.
Qed.

Lemma task_ids_mark id tasks ids :
  task_ids tasks = Some ids -> task_ids (mark_completed id tasks) = Some ids.
Proof.
  revert ids. induction tasks as [|t tasks IH]; intros ids; [done|].
  intros (n & ns & Hn & Hns & ->)%task_ids_cons.
  cbn [mark_completed]. destruct t as [d|v]; [|done].
  case_bool_decide.
  - apply task_ids_cons. exists n, ns. by rewrite int_id_completed.
  - apply task_ids_cons. exists n, ns. eauto.
Qed.

Lemma mark_completed_comm id1 id2 tasks :
  mark_completed id1 (mark_completed id2 tasks)
  = mark_completed id2 (mark_completed id1 tasks).
Proof.
  induction tasks as [|t tasks IH]; [done|].
  destruct t as [d|v]; [|cbn [mark_completed]; by rewrite IH].
  cbn [mark_completed].
  destruct (bool_decide (int_id (EDict d) = Some id2)) eqn:H2;
    destruct (bool_decide (int_id (EDict d) = Some id1)) eqn:H1;
    cbn [mark_completed]; rewrite ?int_id_completed, ?H1, ?H2; try done.
  by rewrite IH.
Qed.

(** X24: after [complete_task] the completed task is listed with the
    done mark and otherwise the same line, id, text and timestamp, as
    before; the tasks at the other positions are the same and so are
    their lines. *)
Theorem completed_task_is_marked id tasks ids :
  task_ids tasks = Some ids -> id ∈ ids ->
  exists (i : nat) d d' tasks',
    complete_task id tasks = Ok (true, tasks')
    /\ tasks !! i = Some (EDict d) /\ tasks' !! i = Some (EDict d')
    /\ (forall j, j <> i -> tasks' !! j = tasks !! j)
    /\ (forall text completed created timestamp,
          task_fields d id text completed created ->
          format_timestamp fromisoformat (EDict d) = Ok timestamp ->
          format_task fromisoformat (EDict d)
          = Ok (listing_line id completed text timestamp)
          /\ format_task fromisoformat (EDict d')
             = Ok (listing_line id true text timestamp)).
Proof.
  intros Hids Hin.
  destruct (task_ids_split _ _ _ Hids Hin)
    as (l1 & task & l2 & -> & Htask & Hl1).
  pose proof Htask as (d & -> & Hd)%int_id_dict.
  exists (List.length l1), d, (dict_set "completed" (VBool true) d).
  eexists. split; [by apply complete_task_found|].
  split; [by rewrite list_lookup_middle|].
  split; [by rewrite list_lookup_middle|]. split.
  { intros j Hj. destruct (decide (j < List.length l1)%nat).
    - by rewrite !lookup_app_l.
    - rewrite !lookup_app_r by lia.
      destruct (j - List.length l1)%nat eqn:E; [lia|done]. }
  intros text completed created timestamp Hfields Hts.
  split; [by apply format_task_fields with created|].
  apply format_task_fields with created.
  - by eapply task_fields_completed.
  - by rewrite format_timestamp_completed.
Qed.

(** X25: completing two tasks of the collection gives the same
    collection in either order. *)
Theorem complete_task_commutes id1 id2 tasks ids :
  task_ids tasks = Some ids -> id1 ∈ ids -> id2 ∈ ids ->
  exists tasks1 tasks2 tasks12,
    complete_task id1 tasks = Ok (true, tasks1)
    /\ complete_task id2 tasks1 = Ok (true, tasks12)
    /\ complete_task id2 tasks = Ok (true, tasks2)
    /\ complete_task id1 tasks2 = Ok (true, tasks12).
Proof.
  intros Hids H1 H2.
  exists (mark_completed id1 tasks), (mark_completed id2 tasks),
         (mark_completed id2 (mark_completed id1 tasks)).
  split; [by eapply complete_task_mark|].
  split; [eapply complete_task_mark; [by apply task_ids_mark|done]|].
  split; [by eapply complete_task_mark|].
  rewrite <- mark_completed_comm.
  eapply complete_task_mark; [by apply task_ids_mark|done].
Qed.

End Marking.

Lemma completed_task_is_marked_witness :
  exists (i : nat) d d' tasks',
    complete_task 1 [Sample.task1; Sample.task2] = Ok (true, tasks')
    /\ [Sample.task1; Sample.task2] !! i = Some (EDict d)
    /\ tasks' !! i = Some (EDict d')
    /\ (forall j, j <> i -> tasks' !! j = [Sample.task1; Sample.task2] !! j)
    /\ (forall text completed created timestamp,
          task_fields d 1 text completed created ->
          format_timestamp Sample.fromisoformat (EDict d) = Ok timestamp ->
          format_task Sample.fromisoformat (EDict d)
          = Ok (listing_line 1 completed text timestamp)
          /\ format_task Sample.fromisoformat (EDict d')
             = Ok (listing_line 1 true text timestamp)).
Proof.
  apply (completed_task_is_marked Sample.fromisoformat 1
           [Sample.task1; Sample.task2] [1; 2]); [reflexivity | left].
Defined.

Lemma complete_task_commutes_witness :
  exists tasks1 tasks2 tasks12,
    complete_task 1 [Sample.task1; Sample.task2] = Ok (true, tasks1)
    /\ complete_task 2 tasks1 = Ok (true, tasks12)
    /\ complete_task 2 [Sample.task1; Sample.task2] = Ok (true, tasks2)
    /\ complete_task 1 tasks2 = Ok (true, tasks12).
Proof.
  apply (complete_task_commutes 1 2 [Sample.task1; Sample.task2] [1; 2]);
    [reflexivity | left | right; left].
Defined.

(** *** Strings in the JSON text *)

Section Escaping.

(** What [escape_char] writes for a character reads back as that
    character, whatever text follows. *)
Lemma unescape_head_escape_char c rest :
  unescape_head (Json.escape_char c +:+ rest) = Some (c, rest).
Proof. destruct c as [[] [] [] [] [] [] [] []]; reflexivity. Qed.

Lemma escape_char_not_empty c rest :
  Json.escape_char c +:+ rest <> EmptyString.
Proof.
  intros H. pose proof (unescape_head_escape_char c rest) as Hhead.
  by rewrite H in Hhead.
Qed.

Lemma unescape_escape fuel s :
  (String.length s < fuel)%nat -> unescape fuel (Json.escape s) = Some s.
Proof.
  revert fuel. induction s as [|c s IH]; intros fuel Hfuel.
  - destruct fuel; [lia|done].
  - destruct fuel as [|fuel]; [lia|].
    cbn [Json.escape unescape].
    destruct (Json.escape_char c +:+ Json.escape s) eqn:E.
    { by apply escape_char_not_empty in E. }
    rewrite <- E, unescape_head_escape_char. cbn.
    rewrite IH by (simpl in Hfuel; lia). done.
Qed.

End Escaping.

(** X26: the escaping that [json.dump] applies with
    [ensure_ascii=False] loses nothing, for any bytes: the body of a
    JSON string reads back as the text it was written from, so two
    different texts are never written as the same JSON string. *)
Theorem json_string_round_trip (s : string) :
  unescape (S (String.length s)) (Json.escape s) = Some s
  /\ (forall s', Json.encode_str s = Json.encode_str s' -> s = s').
Proof.
  split; [apply unescape_escape; lia|].
  intros s' H. unfold Json.encode_str in H.
  apply (inj (String.app _)) in H. apply string_app_inj_l in H.
  assert (unescape (S (String.length s + String.length s')) (Json.escape s)
          = unescape (S (String.length s + String.length s')) (Json.escape s'))
    as Heq by by rewrite H.
  rewrite !unescape_escape in Heq by lia. by injection Heq.
Qed.

(** *** Reading the saved text back *)

Section Reading.
Implicit Types (s rest : string) (c : ascii) (fuel : nat).

Lemma strip_app p s : strip p (p +:+ s) = Some s.
Proof.
  induction p as [|a p IH]; [done|].
  rewrite string_app_cons. cbn [strip]. by rewrite Ascii.eqb_refl.
Qed.

Lemma strip_head_ne a p b s :
  a <> b -> strip (String a p) (String b s) = None.
Proof. intros H. cbn [strip]. by apply Ascii.eqb_neq in H as ->. Qed.

(** What [escape_char] writes never starts with a quote. *)
Lemma escape_char_head c rest :
  exists h t, Json.escape_char c +:+ rest = String h t /\ is_quote h = false.
Proof.
  destruct c as [[] [] [] [] [] [] [] []]; eexists _, _; split; reflexivity.
Qed.

Lemma read_str_body_escape fuel s rest :
  (String.length s < fuel)%nat ->
  read_str_body fuel (Json.escape s +:+ Json.quote +:+ rest) = Some (s, rest).
Proof.
  revert fuel. induction s as [|c s IH]; intros fuel Hfuel.
  - destruct fuel; [lia|]. reflexivity.
  - destruct fuel as [|fuel]; [lia|].
    cbn [Json.escape]. rewrite string_app_assoc.
    destruct (escape_char_head c (Json.escape s +:+ Json.quote +:+ rest))
      as (h & t & E & Hh).
    cbn [read_str_body]. rewrite E, Hh, <- E, unescape_head_escape_char.
    cbn. rewrite IH by (simpl in Hfuel; lia). done.
Qed.

Lemma read_str_encode fuel s rest :
  (String.length s < fuel)%nat ->
  read_str fuel (Json.encode_str s +:+ rest) = Some (s, rest).
Proof.
  intros Hfuel. unfold read_str, Json.encode_str.
  rewrite !string_app_assoc, strip_app. cbn.
  by apply read_str_body_escape.
Qed.

Lemma digit_value_pretty_char d :
  (d < 10)%N -> digit_value (pretty_N_char d) = Some (Z.of_N d).
Proof.
  intros Hd.
  assert (d = 0 \/ d = 1 \/ d = 2 \/ d = 3 \/ d = 4 \/ d = 5 \/ d = 6
          \/ d = 7 \/ d = 8 \/ d = 9)%N as H by lia.
  repeat (destruct H as [->|H]; [reflexivity|]). by subst.
Qed.

Lemma read_digits_pretty_go x :
  forall s, read_digits 0 (pretty_N_go x s) = read_digits (Z.of_N x) s.
Proof.
  induction (N.lt_wf_0 x) as [x _ IH]. intros s.
  destruct (decide (0 < x)%N) as [Hx|Hx].
  - rewrite pretty_N_go_step by done.
    rewrite IH by (apply N.div_lt; lia).
    cbn [read_digits].
    rewrite digit_value_pretty_char by (apply N.mod_lt; lia).
    f_equal. pose proof (N.div_mod x 10). lia.
  - assert (x = 0%N) as -> by lia. by rewrite pretty_N_go_0.
Qed.

Lemma pretty_N_go_app x :
  forall s t, pretty_N_go x s +:+ t = pretty_N_go x (s +:+ t).
Proof.
  induction (N.lt_wf_0 x) as [x _ IH]. intros s t.
  destruct (decide (0 < x)%N) as [Hx|Hx].
  - rewrite (pretty_N_go_step x s), (pretty_N_go_step x (s +:+ t)) by done.
    by rewrite IH by (apply N.div_lt; lia).
  - assert (x = 0%N) as -> by lia. by rewrite !pretty_N_go_0.
Qed.

(** The digits of a positive number start with a digit. *)
Lemma pretty_N_go_head x :
  forall s, (0 < x)%N ->
    exists h t, pretty_N_go x s = String h t /\ is_Some (digit_value h).
Proof.
  induction (N.lt_wf_0 x) as [x _ IH]. intros s Hx.
  rewrite pretty_N_go_step by done.
  destruct (decide (0 < x `div` 10)%N) as [Hdiv|Hdiv].
  - apply IH; [|done]. apply N.div_lt; lia.
  - apply N.nlt_ge, N.le_0_r in Hdiv. rewrite Hdiv, pretty_N_go_0.
    eexists _, _. split; [done|].
    rewrite digit_value_pretty_char by (apply N.mod_lt; lia). done.
Qed.

Lemma read_digits_stop acc c rest :
  digit_value c = None -> read_digits acc (String c rest) = (acc, String c rest).
Proof. intros H. cbn [read_digits]. by rewrite H. Qed.

Lemma digit_not_minus h : is_Some (digit_value h) -> Ascii.eqb h "-" = false.
Proof.
  intros [d Hd]. apply Ascii.eqb_neq. intros ->. by vm_compute in Hd.
Qed.

Lemma pretty_pos_app p rest :
  pretty (Z.pos p) +:+ rest = pretty_N_go (N.pos p) rest.
Proof.
  change (pretty (Z.pos p)) with (pretty_N_go (N.pos p) EmptyString).
  by rewrite pretty_N_go_app.
Qed.

Lemma read_int_pretty n c rest :
  digit_value c = None ->
  read_int (pretty n +:+ String c rest) = (n, String c rest).
Proof.
  intros Hc. destruct n as [|p|p].
  - change (pretty 0 +:+ String c rest) with (String "0" (String c rest)).
    cbn. by rewrite Hc.
  - rewrite pretty_pos_app.
    destruct (pretty_N_go_head (N.pos p) (String c rest)) as (h & t & E & Hh);
      [lia|].
    unfold read_int. rewrite E, (digit_not_minus _ Hh), <- E.
    rewrite read_digits_pretty_go. by apply read_digits_stop.
  - change (pretty (Z.neg p)) with ("-" +:+ pretty (Z.pos p)).
    rewrite string_app_assoc, pretty_pos_app.
    rewrite string_app_cons, string_app_nil_l. unfold read_int.
    rewrite Ascii.eqb_refl.
    rewrite read_digits_pretty_go, read_digits_stop by done. done.
Qed.

(** The text of an integer starts with a digit or a minus sign. *)
Lemma pretty_Z_head (n : Z) rest :
  exists h t,
    pretty n +:+ rest = String h t
    /\ (is_Some (digit_value h) \/ h = "-"%char).
Proof.
  destruct n as [|p|p].
  - exists "0"%char, rest. split; [done|]. left. by exists 0.
  - rewrite pretty_pos_app.
    destruct (pretty_N_go_head (N.pos p) rest) as (h & t & E & Hh); [lia|].
    eauto.
  - exists "-"%char, (pretty (Z.pos p) +:+ rest). split; [|by right].
    change (pretty (Z.neg p)) with ("-" +:+ pretty (Z.pos p)).
    by rewrite string_app_assoc.
Qed.

End Reading.

Section ReadingValues.
Implicit Types (s rest : string) (c : ascii) (fuel : nat) (v : scalar) (d : dict).

(** A digit or a minus sign is none of the characters that start
    another kind of value. *)
Lemma int_head_dispatch h :
  is_Some (digit_value h) \/ h = "-"%char ->
  Ascii.eqb h "n" = false /\ Ascii.eqb h "t" = false
  /\ Ascii.eqb h "f" = false /\ is_quote h = false
  /\ Ascii.eqb h "{" = false.
Proof.
  intros [[n Hn]| ->]; [|by vm_compute].
  assert (forall c, digit_value c = None -> Ascii.eqb h c = false) as Hne.
  { intros c Hc. apply Ascii.eqb_neq. intros ->. congruence. }
  split_and!; try (apply Hne; by vm_compute).
  unfold is_quote. apply N.eqb_neq. intros Hq.
  unfold digit_value, is_digit in Hn. rewrite Hq in Hn. by vm_compute in Hn.
Qed.

Lemma read_scalar_encode fuel v c rest :
  (scalar_weight v < fuel)%nat -> digit_value c = None ->
  read_scalar fuel (Json.encode_scalar v +:+ String c rest)
  = Some (v, String c rest).
Proof.
  intros Hfuel Hc. destruct v as [|[]|n|s].
  - reflexivity.
  - reflexivity.
  - reflexivity.
  - cbn [Json.encode_scalar].
    destruct (pretty_Z_head n (String c rest)) as (h & t & E & Hh).
    destruct (int_head_dispatch h Hh) as (Hn & Ht & Hf & Hq & _).
    unfold read_scalar. rewrite E, Hn, Ht, Hf, Hq, <- E.
    by rewrite read_int_pretty.
  - cbn [Json.encode_scalar].
    assert (Json.encode_str s +:+ String c rest
            = String "034" (Json.escape s +:+ Json.quote +:+ String c rest)) as E.
    { unfold Json.encode_str, Json.quote.
      by rewrite !string_app_assoc, string_app_cons, string_app_nil_l. }
    unfold read_scalar. rewrite E. cbn [Ascii.eqb Bool.eqb is_quote].
    rewrite <- E, read_str_encode by done. done.
Qed.

(** The head of an encoded scalar is not an opening brace. *)
Lemma encode_scalar_head v rest :
  exists h t,
    Json.encode_scalar v +:+ rest = String h t /\ Ascii.eqb h "{" = false.
Proof.
  destruct v as [|[]|n|s]; try (eexists _, _; split; reflexivity).
  destruct (pretty_Z_head n rest) as (h & t & E & Hh).
  destruct (int_head_dispatch h Hh) as (_ & _ & _ & _ & Hb). eauto.
Qed.

Lemma read_item_encode fuel k v c rest :
  (String.length k < fuel)%nat -> (scalar_weight v < fuel)%nat ->
  digit_value c = None ->
  read_item fuel (Json.encode_item (k, v) +:+ String c rest)
  = Some ((k, v), String c rest).
Proof.
  intros Hk Hv Hc. unfold read_item, Json.encode_item. cbn [fst snd].
  rewrite !string_app_assoc, read_str_encode by done.
  cbn [mbind option_bind fst snd].
  rewrite strip_app. cbn [mbind option_bind].
  by rewrite read_scalar_encode.
Qed.

End ReadingValues.

Section ReadingCollections.
Implicit Types (s rest : string) (c : ascii) (fuel level : nat) (d : dict)
  (tasks : list elem).

Lemma dict_weight_cons kv d :
  dict_weight (kv :: d)
  = S (String.length kv.1 + scalar_weight kv.2 + dict_weight d).
Proof. unfold dict_weight. cbn [List.length foldr]. lia. Qed.

Lemma tasks_weight_cons x tasks :
  tasks_weight (x :: tasks) = S (elem_weight x + tasks_weight tasks).
Proof. unfold tasks_weight. cbn [List.length foldr]. lia. Qed.

Lemma read_items_join fuel sep d c rest :
  d <> [] -> (dict_weight d < fuel)%nat ->
  digit_value c = None -> c <> ","%char ->
  read_items fuel (String "," sep)
    (Json.join (String "," sep) (map Json.encode_item d) +:+ String c rest)
  = Some (d, String c rest).
Proof.
  intros Hne Hfuel Hc Hcomma. revert fuel Hfuel.
  induction d as [|[k v] d IH]; [done|]. intros fuel Hfuel.
  rewrite dict_weight_cons in Hfuel. cbn [fst snd] in Hfuel.
  destruct fuel as [|fuel]; [lia|].
  destruct d as [|kv2 d].
  - cbn [map Json.join read_items].
    rewrite read_item_encode by (done || lia).
    cbn [mbind option_bind fst snd].
    by rewrite strip_head_ne by done.
  - cbn [map] in IH. cbn [map read_items].
    change (Json.join ?sp (?x :: ?y :: ?l))
      with (x +:+ sp +:+ Json.join sp (y :: l)).
    rewrite !string_app_assoc, string_app_cons.
    rewrite read_item_encode by (done || lia).
    cbn [mbind option_bind fst snd].
    rewrite <- string_app_cons, strip_app.
    rewrite IH by (done || lia). done.
Qed.

Lemma read_dict_encode fuel level d rest :
  (dict_weight d < fuel)%nat ->
  read_dict fuel level (Json.encode_dict level d +:+ rest) = Some (d, rest).
Proof.
  intros Hfuel. destruct d as [|kv d]; [reflexivity|].
  set (NI := Json.newline +:+ Json.indent (S level)).
  set (J := Json.join (String "," NI) (map Json.encode_item (kv :: d))).
  set (TAIL := String "010" ((Json.indent level +:+ "}") +:+ rest)).
  assert (Json.encode_dict level (kv :: d) +:+ rest
          = "{" +:+ NI +:+ J +:+ TAIL) as ->.
  { unfold Json.encode_dict, NI, J, TAIL. rewrite !string_app_assoc.
    reflexivity. }
  unfold read_dict. fold NI. rewrite strip_app. cbn [mbind option_bind].
  replace (strip "}" (NI +:+ J +:+ TAIL)) with (@None string)
    by (symmetry; by apply strip_head_ne).
  rewrite strip_app. cbn [mbind option_bind].
  change ("," +:+ NI) with (String "," NI). fold J. unfold J, TAIL.
  rewrite read_items_join by done.
  cbn [mbind option_bind fst snd].
  change (String "010" ((Json.indent level +:+ "}") +:+ rest))
    with ((Json.newline +:+ Json.indent level +:+ "}") +:+ rest).
  by rewrite strip_app.
Qed.

End ReadingCollections.

Section ReadingTasks.
Implicit Types (s rest : string) (c : ascii) (fuel : nat) (tasks : list elem).

Lemma encode_dict_head level d rest :
  exists t, Json.encode_dict level d +:+ rest = String "{" t.
Proof. destruct d; eexists; reflexivity. Qed.

Lemma read_elem_encode fuel x c rest :
  (elem_weight x < fuel)%nat -> digit_value c = None ->
  read_elem fuel 1 (Json.encode_elem 1 x +:+ String c rest)
  = Some (x, String c rest).
Proof.
  intros Hfuel Hc. destruct x as [d|v]; cbn [Json.encode_elem].
  - destruct (encode_dict_head 1 d (String c rest)) as [t E].
    unfold read_elem. rewrite E, Ascii.eqb_refl, <- E.
    by rewrite read_dict_encode.
  - destruct (encode_scalar_head v (String c rest)) as (h & t & E & Hb).
    unfold read_elem. rewrite E, Hb, <- E.
    by rewrite read_scalar_encode.
Qed.

Lemma read_elems_join fuel sep tasks c rest :
  tasks <> [] -> (tasks_weight tasks < fuel)%nat ->
  digit_value c = None -> c <> ","%char ->
  read_elems fuel (String "," sep)
    (Json.join (String "," sep) (map (Json.encode_elem 1) tasks)
       +:+ String c rest)
  = Some (tasks, String c rest).
Proof.
  intros Hne Hfuel Hc Hcomma. revert fuel Hfuel.
  induction tasks as [|x tasks IH]; [done|]. intros fuel Hfuel.
  rewrite tasks_weight_cons in Hfuel.
  destruct fuel as [|fuel]; [lia|].
  destruct tasks as [|y tasks].
  - cbn [map Json.join read_elems].
    rewrite read_elem_encode by (done || lia).
    cbn [mbind option_bind fst snd].
    by rewrite strip_head_ne by done.
  - cbn [map] in IH. cbn [map read_elems].
    change (Json.join ?sp (?a :: ?b :: ?l))
      with (a +:+ sp +:+ Json.join sp (b :: l)).
    rewrite !string_app_assoc, string_app_cons.
    rewrite read_elem_encode by (done || lia).
    cbn [mbind option_bind fst snd].
    rewrite <- string_app_cons, strip_app.
    rewrite IH by (done || lia). done.
Qed.

Lemma read_tasks_dumps fuel tasks :
  (tasks_weight tasks < fuel)%nat ->
  read_tasks fuel (Json.dumps_indent2 tasks) = Some tasks.
Proof.
  intros Hfuel. destruct tasks as [|x tasks]; [reflexivity|].
  set (NI := Json.newline +:+ Json.indent 1).
  set (J := Json.join (String "," NI) (map (Json.encode_elem 1) (x :: tasks))).
  set (TAIL := String "010" "]").
  assert (Json.dumps_indent2 (x :: tasks) = "[" +:+ NI +:+ J +:+ TAIL) as ->.
  { unfold Json.dumps_indent2, NI, J, TAIL. rewrite !string_app_assoc.
    reflexivity. }
  unfold read_tasks. fold NI. rewrite strip_app. cbn [mbind option_bind].
  replace (strip "]" (NI +:+ J +:+ TAIL)) with (@None string)
    by (symmetry; by apply strip_head_ne).
  rewrite strip_app. cbn [mbind option_bind].
  change ("," +:+ NI) with (String "," NI). fold J. unfold J, TAIL.
  rewrite read_elems_join by done.
  reflexivity.
Qed.

End ReadingTasks.

(** X27: the text [save_tasks] writes determines the collection: read
    back in the layout of [json.dump] with [indent=2], it gives the
    collection that was saved, field by field and in order, so two
    different collections are never saved as the same file. *)
Theorem saved_text_determines_tasks (tasks : list elem) :
  read_tasks (S (tasks_weight tasks)) (Json.dumps_indent2 tasks) = Some tasks
  /\ (forall tasks',
        Json.dumps_indent2 tasks = Json.dumps_indent2 tasks' -> tasks = tasks').
Proof.
  split; [apply read_tasks_dumps; lia|].
  intros tasks' H.
  assert (read_tasks (S (tasks_weight tasks + tasks_weight tasks'))
            (Json.dumps_indent2 tasks)
          = read_tasks (S (tasks_weight tasks + tasks_weight tasks'))
              (Json.dumps_indent2 tasks')) as Heq by by rewrite H.
  rewrite !read_tasks_dumps in Heq by lia. by injection Heq.
Qed.
